(** * volplugin: the host-side volume agent

    A shallow embedding of [volplugin/volplugin.go] and of the driver
    contract of [storage/driver.go].  The agent is stateful Go code that
    talks to a master over HTTP, to storage drivers and to the file system;
    it is embedded as state-passing functions over a process state [Proc]
    that carries the [DaemonConfig], the goroutines started so far and the
    chronological trace of the observable calls.  Everything that answers
    from outside the process (the master, the drivers, the file system) is
    gathered in a [World]. *)

From Stdlib Require Import ZArith Lia Ascii String.
From stdpp Require Import gmap strings list.

Local Open Scope string_scope.
Local Open Scope Z_scope.

(** ** Go preliminaries *)

(** Go [error] values the agent tells apart.  [errVolumeNotFound] and
    [errVolumeResponse] are the two package-level sentinels that
    [updateMounts] switches on; [errNotExist] is any error for which
    [os.IsNotExist] answers true. *)
Inductive error : Type :=
  | errVolumeNotFound
  | errVolumeResponse
  | errNotExist
  | errOther (msg : string).

Definition IsNotExist (e : error) : bool :=
  match e with errNotExist => true | _ => false end.

(** [time.Duration] counts nanoseconds. *)
Definition Second : Z := 1000000000.

(** Cutting a string at a one-byte separator, with at most [cuts] cuts.
    Both [strings.Split] and [strings.SplitN] of the source are called with
    a one-byte separator (["/"] and ["."]). *)
Fixpoint genSplit (s : string) (sep : ascii) (cuts : nat) : list string :=
  match cuts with
  | O => [s]
  | S cuts' =>
      match s with
      | EmptyString => [EmptyString]
      | String c r =>
          if Ascii.eqb c sep then EmptyString :: genSplit r sep cuts'
          else match genSplit r sep cuts with
               | h :: t => String c h :: t
               | [] => [String c EmptyString]
               end
      end
  end.

(** [strings.Split(s, sep)]: all the pieces between separators. *)
Definition Split (s : string) (sep : ascii) : list string :=
  genSplit s sep (String.length s).

(** [strings.SplitN(s, sep, n)]: [n = 0] gives nil, [n < 0] all the
    pieces, [n > 0] at most [n] pieces, the last one being the remainder. *)
Definition SplitN (s : string) (sep : ascii) (n : Z) : list string :=
  if n =? 0 then []
  else if n <? 0 then Split s sep
  else genSplit s sep (Z.to_nat (n - 1)).

(** Number of occurrences of a byte. *)
Fixpoint countByte (sep : ascii) (s : string) : nat :=
  match s with
  | EmptyString => O
  | String c r => (if Ascii.eqb c sep then 1 else 0) + countByte sep r
  end%nat.

(** ** storage/driver.go *)

Module storage.

(** [Params] is a [map[string]string]. *)
Record Volume : Type := {
  Name : string;
  Size : Z;
  Params : gmap string string
}.

(** The embedded [Volume] field of the Go struct is the field [Volume]. *)
Record Mount : Type := {
  Device : string;
  Path : string;
  DevMajor : Z;
  DevMinor : Z;
  MountVolume : Volume
}.

(** The methods of the three capability interfaces. *)
Inductive MountDriverOp : Type :=
  OpMount | OpUnmount | OpMounted | OpMountPath.

Inductive CRUDDriverOp : Type :=
  OpCreate | OpFormat | OpDestroy | OpList | OpExists.

Inductive SnapshotDriverOp : Type :=
  OpCreateSnapshot | OpRemoveSnapshot | OpListSnapshots | OpCopySnapshot.

Inductive DriverOp : Type :=
  | MountDriver (op : MountDriverOp)
  | CRUDDriver (op : CRUDDriverOp)
  | SnapshotDriver (op : SnapshotDriverOp).

End storage.

(** ** The packages the agent imports

    [config], [lock] and [lock/client] are not part of the sources at
    hand; what [volplugin.go] reads from them is declared here. *)

Module config.

(** The fields of [config.Global] that [volplugin.go] reads. *)
Record Global : Type := {
  Debug : bool;
  Timeout : Z;
  TTL : Z;
  MountPath : string
}.

(** The field of the master's [config.Volume] that [updateMounts] reads. *)
Record Volume : Type := {
  Unlocked : bool
}.

Record UseMount : Type := {
  UseVolume : string;
  Reason : string;
  Hostname : string
}.

(** Opaque to the agent. *)
Inductive RuntimeOptions : Type := mkRuntimeOptions (raw : string).

End config.

Module lock.

(** Modelled from the spec: the constants [lock.ReasonMount] and
    [lock.Unlocked] are declared in the absent [lock] package; the spec
    gives the reason of a mount lease as "mount" and names the holder of
    an unlocked volume a reserved placeholder. *)
Definition ReasonMount : string := "mount".
Definition Unlocked : string := "unlocked".

End lock.

(** A channel is identified by the order of its allocation. *)
Definition chan : Type := nat.

Module client.

(** Modelled from the spec: [client.Driver] lives in the absent
    [lock/client] package.  The spec says the master client exclusively
    owns the stop channels of the outbound heartbeats, in a registry
    keyed by volume name. *)
Record Driver : Type := {
  master : string;
  stopChans : gmap string chan
}.

(** Modelled from the spec: [client.NewDriver(master)] builds the client of
    one master, with no stop channel registered yet. *)
Definition NewDriver (m : string) : Driver :=
  {| master := m; stopChans := ∅ |}.

(** Modelled from the spec: [AddStopChan(volumeName)] allocates and
    registers a cancellation channel for a heartbeat and returns it. *)
Definition AddStopChan (name : string) (fresh : chan) (d : Driver)
  : chan * Driver :=
  (fresh, {| master := master d; stopChans := <[name := fresh]> (stopChans d) |}).

End client.

(** ** volplugin/volplugin.go: data *)

Definition basePath : string := "/run/docker/plugins".

(** The two mutexes of the Go struct guard the maps against concurrent
    handlers; the embedding runs one function at a time and leaves them
    out. *)
Record DaemonConfig : Type := {
  Master : string;
  Host : string;
  Global : option config.Global;
  Client : option client.Driver;
  runtimeVolumeMap : gmap string config.RuntimeOptions;
  runtimeStopChans : gmap string chan;
  mountCount : gmap string Z
}.

Definition NewDaemonConfig (master host : string) : DaemonConfig :=
  {| Master := master;
     Host := host;
     Global := None;
     Client := None;
     runtimeVolumeMap := ∅;
     runtimeStopChans := ∅;
     mountCount := ∅ |}.

(** Reading a Go [map[string]int] at an absent key gives 0. *)
Definition refcount (d : DaemonConfig) (V : string) : Z :=
  default 0 (mountCount d !! V).

(** The handlers the router dispatches to; their bodies are methods of
    [DaemonConfig] defined outside [volplugin.go]. *)
Inductive Action : Type :=
  | dc_activate | dc_nilAction | dc_create | dc_getPath | dc_list | dc_get
  | dc_mount | dc_unmount | dc_action.

(** What is installed on a route: a handler wrapped by [logHandler], or a
    handler itself. *)
Inductive HandlerFunc : Type :=
  | logHandler (name : string) (debug : bool) (actionFunc : Action)
  | bare (actionFunc : Action).

Definition actionOf (h : HandlerFunc) : Action :=
  match h with logHandler _ _ a => a | bare a => a end.

(** A gorilla/mux path template as [configureRouter] writes them: a literal
    path, or ["{var:.*}"], one variable whose pattern is [.*] with nothing
    before it. *)
Inductive Template : Type :=
  | Literal (path : string)
  | AnyPath (var : string).

(** The subrouter [router.Methods("POST").Subrouter()] with its routes in
    the order of registration. *)
Record Router : Type := {
  methods : list string;
  routes : list (Template * HandlerFunc)
}.

(** Goroutines started with [go]. *)
Inductive Task : Type :=
  | startRuntimePoll (volName : string) (m : storage.Mount)
  | HeartbeatMount (ttl : Z) (payload : config.UseMount) (stop : chan)
  | HandleDebugSignal
  | watchGlobalTask.

Inductive Level : Type := InfoLevel | WarnLevel | ErrorLevel | FatalLevel.

Inductive LogMsg : Type :=
  | GlobalMissing (master : string)
  | ReachedVolmaster (master : string)
  | CouldNotRequestGlobal
  | InvalidVolumeName (name : string)
  | RefreshingMount (name : string)
  | VolumeNotFoundSkipping
  | VolmasterNotContacted
  | FatalServing (e : error).

(** Calls that leave the process, in the order they happen. *)
Inductive Event : Type :=
  | Log (l : Level) (m : LogMsg)
  | Sleep (d : Z)
  | HttpGet (url : string)
  | NewMountDriver (driverName mountPath : string)
  | DriverCall (driverName : string) (op : storage.DriverOp)
  | RequestVolume (policy name : string)
  | ReportMount (payload : config.UseMount)
  | ReportMountStatus (payload : config.UseMount)
  | OsRemove (path : string)
  | MkdirAll (path : string) (perm : Z)
  | ListenUnix (path : string)
  | Serve (handler : Router)
  | CloseListener.

(** The process: the daemon's configuration object, the goroutines
    started, the calls made, the channel allocator, the number of
    [GET /global] requests sent, whether debug logging was switched on, and
    the part of the file system the daemon touches. *)
Record Proc : Type := {
  dc : DaemonConfig;
  goroutines : list Task;
  trace : list Event;
  nextChan : chan;
  fetches : nat;
  debugLogging : bool;
  sockFile : bool;
  pluginDir : option Z
}.

(** What the fetch of the global configuration can come to: [http.Get]
    fails, [ioutil.ReadAll] fails, [json.Unmarshal] fails, or a
    configuration is decoded. *)
Inductive FetchResult : Type :=
  | GetFailed
  | ReadFailed
  | DecodeFailed
  | Decoded (g : config.Global).

(** The surroundings of the process.  [MountDrivers] lists the keys of
    [backend.MountDrivers] in the order the [range] visits them. *)
Record World : Type := {
  MountDrivers : list string;
  newMountDriver : string -> string -> option error;
  Mounted : string -> Z -> list storage.Mount + error;
  requestVolume : string -> string -> option config.Volume * option error;
  reportMount : config.UseMount -> option error;
  reportMountStatus : config.UseMount -> option error;
  getGlobalAnswer : nat -> FetchResult;
  osRemoveFails : option error;
  mkdirAllFails : option error;
  listenUnixFails : option error;
  serveReturns : option error;
  closeUnlinks : bool
}.

(** ** State passing *)

Definition withDc (d : DaemonConfig) (p : Proc) : Proc :=
  {| dc := d; goroutines := goroutines p; trace := trace p;
     nextChan := nextChan p; fetches := fetches p;
     debugLogging := debugLogging p; sockFile := sockFile p;
     pluginDir := pluginDir p |}.

Definition emit (e : Event) (p : Proc) : Proc :=
  {| dc := dc p; goroutines := goroutines p; trace := trace p ++ [e];
     nextChan := nextChan p; fetches := fetches p;
     debugLogging := debugLogging p; sockFile := sockFile p;
     pluginDir := pluginDir p |}.

(** The statement [go f(...)]. *)
Definition go (t : Task) (p : Proc) : Proc :=
  {| dc := dc p; goroutines := goroutines p ++ [t]; trace := trace p;
     nextChan := nextChan p; fetches := fetches p;
     debugLogging := debugLogging p; sockFile := sockFile p;
     pluginDir := pluginDir p |}.

Definition withFiles (sock : bool) (dir : option Z) (p : Proc) : Proc :=
  {| dc := dc p; goroutines := goroutines p; trace := trace p;
     nextChan := nextChan p; fetches := fetches p;
     debugLogging := debugLogging p; sockFile := sock; pluginDir := dir |}.

Definition setGlobal (g : option config.Global) (d : DaemonConfig) : DaemonConfig :=
  {| Master := Master d; Host := Host d; Global := g; Client := Client d;
     runtimeVolumeMap := runtimeVolumeMap d;
     runtimeStopChans := runtimeStopChans d; mountCount := mountCount d |}.

Definition setClient (c : option client.Driver) (d : DaemonConfig) : DaemonConfig :=
  {| Master := Master d; Host := Host d; Global := Global d; Client := c;
     runtimeVolumeMap := runtimeVolumeMap d;
     runtimeStopChans := runtimeStopChans d; mountCount := mountCount d |}.

(** How a piece of Go code ends: it runs to its end ([Ok]; for a function
    returning [error] this is [return nil]), the enclosing function returns
    an error, [log.Fatalf] ends the process, a nil pointer is dereferenced,
    or it is still inside an unbounded loop when the fuel is used up. *)
Inductive result (A : Type) : Type :=
  | Ok (a : A) (p : Proc)
  | Return (e : error) (p : Proc)
  | Exit (p : Proc)
  | Panic (p : Proc)
  | Spinning (p : Proc).

Arguments Ok {A} a p.
Arguments Return {A} e p.
Arguments Exit {A} p.
Arguments Panic {A} p.
Arguments Spinning {A} p.

Definition M (A : Type) : Type := Proc -> result A.

Definition stateOf {A : Type} (r : result A) : Proc :=
  match r with
  | Ok _ p | Return _ p | Exit p | Panic p | Spinning p => p
  end.

Definition bind {A B : Type} (c : M A) (k : A -> M B) : M B :=
  fun p =>
    match c p with
    | Ok a p' => k a p'
    | Return e p' => Return e p'
    | Exit p' => Exit p'
    | Panic p' => Panic p'
    | Spinning p' => Spinning p'
    end.

Notation "x <~ c ;; k" := (bind c (fun x => k))
  (at level 100, c at next level, right associativity).
Notation "c ;;; k" := (bind c (fun _ => k))
  (at level 100, right associativity).

(** A statement that only changes the state. *)
Definition step (f : Proc -> Proc) : M unit := fun p => Ok tt (f p).

(** Running a loop body over the elements of a slice, or over the keys of a
    map in the order given. *)
Fixpoint range {A : Type} (body : A -> M unit) (xs : list A) : M unit :=
  match xs with
  | [] => fun p => Ok tt p
  | x :: rest => body x ;;; range body rest
  end.

(** ** volplugin/volplugin.go: operations *)

(** [getGlobal]: on each of the three failures the error is logged and the
    function returns; only a decoded configuration is stored. *)
Definition getGlobal (w : World) (p : Proc) : Proc :=
  let n := fetches p in
  let p :=
    {| dc := dc p; goroutines := goroutines p;
       trace := trace p ++ [HttpGet ("http://" ++ Master (dc p) ++ "/global")];
       nextChan := nextChan p; fetches := S n;
       debugLogging := debugLogging p; sockFile := sockFile p;
       pluginDir := pluginDir p |} in
  match getGlobalAnswer w n with
  | GetFailed => emit (Log ErrorLevel CouldNotRequestGlobal) p
  | ReadFailed => emit (Log ErrorLevel CouldNotRequestGlobal) p
  | DecodeFailed => emit (Log ErrorLevel CouldNotRequestGlobal) p
  | Decoded global => withDc (setGlobal (Some global) (dc p)) p
  end.

(** One turn of the loop of [watchGlobal]. *)
Definition watchGlobalTurn (w : World) : M unit := fun p =>
  let p := getGlobal w (emit (Sleep Second) p) in
  match Global (dc p) with
  | None => Panic p
  | Some g =>
      if config.Debug g then
        Ok tt {| dc := dc p; goroutines := goroutines p; trace := trace p;
                 nextChan := nextChan p; fetches := fetches p;
                 debugLogging := true; sockFile := sockFile p;
                 pluginDir := pluginDir p |}
      else Ok tt p
  end.

(** [watchGlobal] never leaves its loop; [turns] bounds the turns run. *)
Fixpoint watchGlobal (w : World) (turns : nat) : M unit :=
  match turns with
  | O => fun p => Spinning p
  | S n => watchGlobalTurn w ;;; watchGlobal w n
  end.

(** The tail of the loop body of [updateMounts]: the two [go] statements.
    The arguments of a [go] call are evaluated by the caller, so the stop
    channel is registered before the heartbeat starts. *)
Definition startTasks (mount : storage.Mount) (payload : config.UseMount)
  : M unit := fun p =>
  let name := storage.Name (storage.MountVolume mount) in
  let p := go (startRuntimePoll name mount) p in
  match Global (dc p), Client (dc p) with
  | Some g, Some c =>
      let '(ch, c') := client.AddStopChan name (nextChan p) c in
      let p :=
        {| dc := setClient (Some c') (dc p); goroutines := goroutines p;
           trace := trace p; nextChan := S (nextChan p);
           fetches := fetches p; debugLogging := debugLogging p;
           sockFile := sockFile p; pluginDir := pluginDir p |} in
      Ok tt (go (HeartbeatMount (config.TTL g) payload ch) p)
  | _, _ => Panic p
  end.

(** The body of the inner loop of [updateMounts], for one mount. *)
Definition refreshMount (w : World) (mount : storage.Mount) : M unit := fun p =>
  let name := storage.Name (storage.MountVolume mount) in
  let parts := Split name "/" in
  if negb (Nat.eqb (length parts) 2) then
    Ok tt (emit (Log WarnLevel (InvalidVolumeName name)) p)
  else
    let p := emit (Log InfoLevel (RefreshingMount name)) p in
    let policy := nth 0 parts "" in
    let vname := nth 1 parts "" in
    let p := emit (RequestVolume policy vname) p in
    let '(vol, err) := requestVolume w policy vname in
    match err with
    | Some errVolumeNotFound =>
        Ok tt (emit (Log WarnLevel VolumeNotFoundSkipping) p)
    | Some errVolumeResponse =>
        Exit (emit (Log FatalLevel VolmasterNotContacted) p)
    | _ =>
        match vol, Client (dc p) with
        | Some vol, Some _ =>
            let payload :=
              {| config.UseVolume := name;
                 config.Reason := lock.ReasonMount;
                 config.Hostname :=
                   if config.Unlocked vol then lock.Unlocked else Host (dc p) |} in
            let p := emit (ReportMount payload) p in
            match reportMount w payload with
            | None => startTasks mount payload p
            | Some _ =>
                let p := emit (ReportMountStatus payload) p in
                match reportMountStatus w payload with
                | None => startTasks mount payload p
                | Some err => Return err p
                end
            end
        | _, _ => Panic p
        end
    end.

(** The body of the outer loop of [updateMounts], for one driver name. *)
Definition scanDriver (w : World) (driverName : string) : M unit := fun p =>
  match Global (dc p) with
  | None => Panic p
  | Some g =>
      let p := emit (NewMountDriver driverName (config.MountPath g)) p in
      match newMountDriver w driverName (config.MountPath g) with
      | Some err => Return err p
      | None =>
          let p := emit (DriverCall driverName (storage.MountDriver storage.OpMounted)) p in
          match Mounted w driverName (config.Timeout g) with
          | inr err => Return err p
          | inl mounts => range (refreshMount w) mounts p
          end
      end
  end.

Definition updateMounts (w : World) : M unit :=
  range (scanDriver w) (MountDrivers w).

(** The literal of [routeMap], in the order it is written. *)
Definition routeMap : list (string * Action) :=
  [ ("/Plugin.Activate", dc_activate);
    ("/Plugin.Deactivate", dc_nilAction);
    ("/VolumeDriver.Create", dc_create);
    ("/VolumeDriver.Remove", dc_getPath);
    ("/VolumeDriver.List", dc_list);
    ("/VolumeDriver.Get", dc_get);
    ("/VolumeDriver.Path", dc_getPath);
    ("/VolumeDriver.Mount", dc_mount);
    ("/VolumeDriver.Unmount", dc_unmount) ].

(** The body of the loop of [configureRouter]; [None] is the panic of
    [parts[1]] on a key without a dot. *)
Definition installRoute (debug : bool) (kv : string * Action)
  : option (Template * HandlerFunc) :=
  parts1 ← SplitN kv.1 "." 2 !! 1%nat;
  Some (Literal kv.1, logHandler parts1 debug kv.2).

(** [configureRouter], with the order in which the [range] visits
    [routeMap] made explicit; [None] is a panic (a nil [dc.Global], or an
    index out of range). *)
Definition configureRouterIn (order : list (string * Action)) (d : DaemonConfig)
  : option Router :=
  g ← Global d;
  rs ← mapM (installRoute (config.Debug g)) order;
  Some {| methods := ["POST"];
          routes := rs ++ (if config.Debug g
                           then [(AnyPath "action", bare dc_action)]
                           else []) |}.

Definition configureRouter (d : DaemonConfig) : option Router :=
  configureRouterIn routeMap d.

(** The text of a template as it is handed to [HandleFunc]. *)
Definition templateText (t : Template) : string :=
  match t with
  | Literal path => path
  | AnyPath var => "{" ++ var ++ ":.*}"
  end.

Definition leadingSlash (s : string) : bool :=
  match s with
  | String c _ => Ascii.eqb c "/"
  | EmptyString => false
  end.

(** gorilla/mux is a library outside the repository.  Its [Route.Path]
    takes only a template that starts with a slash: for any other template
    the route keeps the error and matches no request.  A template that is
    accepted matches its own path when it is literal, and any path when it
    is the variable with the pattern [.*].  The first route that matches
    wins. *)
Definition matchTemplate (t : Template) (path : string) : bool :=
  leadingSlash (templateText t)
  && match t with
     | Literal l => String.eqb l path
     | AnyPath _ => true
     end.

Definition ServeHTTP (r : Router) (method path : string) : option HandlerFunc :=
  if existsb (String.eqb method) (methods r)
  then snd <$> List.find (fun rt => matchTemplate rt.1 path) (routes r)
  else None.

(** Modelled from the spec: the handler bodies are defined outside
    [volplugin.go].  For each handler, the driver operations that the verb
    table and the mount and unmount protocols of the spec let it call. *)
Definition driverOps (a : Action) : list storage.DriverOp :=
  match a with
  | dc_activate => []
  | dc_nilAction => []
  | dc_create =>
      [storage.CRUDDriver storage.OpExists;
       storage.CRUDDriver storage.OpCreate;
       storage.CRUDDriver storage.OpFormat]
  | dc_getPath => [storage.MountDriver storage.OpMountPath]
  | dc_list => [storage.MountDriver storage.OpMountPath]
  | dc_get => [storage.MountDriver storage.OpMountPath]
  | dc_mount =>
      [storage.MountDriver storage.OpMountPath;
       storage.MountDriver storage.OpMount]
  | dc_unmount => [storage.MountDriver storage.OpUnmount]
  | dc_action => []
  end.

(** [path.Join(basePath, "volplugin.sock")]; both parts are clean. *)
Definition driverPath : string := basePath ++ "/" ++ "volplugin.sock".

(** Mode [0700]. *)
Definition perm0700 : Z := 7 * 64.

(** The first loop of [Daemon]. *)
Fixpoint waitGlobal (w : World) (fuel : nat) : M unit := fun p =>
  match fuel with
  | O => Spinning p
  | S n =>
      let p := getGlobal w p in
      match Global (dc p) with
      | Some _ => Ok tt p
      | None =>
          let p := emit (Log ErrorLevel (GlobalMissing (Master (dc p)))) p in
          waitGlobal w n (emit (Sleep Second) p)
      end
  end.

(** [os.Remove(driverPath)] on the modelled file system. *)
Definition osRemove (w : World) (p : Proc) : option error * Proc :=
  let p := emit (OsRemove driverPath) p in
  match osRemoveFails w with
  | Some e => (Some e, p)
  | None =>
      if sockFile p then (None, withFiles false (pluginDir p) p)
      else (Some errNotExist, p)
  end.

(** [os.MkdirAll(basePath, 0700)]: an existing directory is left as it is. *)
Definition osMkdirAll (w : World) (p : Proc) : option error * Proc :=
  let p := emit (MkdirAll basePath perm0700) p in
  match mkdirAllFails w with
  | Some e => (Some e, p)
  | None =>
      (None, withFiles (sockFile p)
               (Some (default perm0700 (pluginDir p))) p)
  end.

(** [net.ListenUnix]: binding creates the socket file, and fails when the
    path is taken. *)
Definition netListenUnix (w : World) (p : Proc) : option error * Proc :=
  let p := emit (ListenUnix driverPath) p in
  match listenUnixFails w with
  | Some e => (Some e, p)
  | None =>
      if sockFile p then (Some (errOther "address already in use"), p)
      else (None, withFiles true (pluginDir p) p)
  end.

(** A call whose error, if any, is returned by the caller. *)
Definition orReturn (f : Proc -> option error * Proc) : M unit := fun p =>
  match f p with
  | (None, p') => Ok tt p'
  | (Some e, p') => Return e p'
  end.

(** The first statement of [Daemon]: [dc.Client = client.NewDriver(dc.Master)]. *)
Definition withClient (p : Proc) : Proc :=
  withDc (setClient (Some (client.NewDriver (Master (dc p)))) (dc p)) p.

(** [Daemon] from [driverPath := ...] to the construction of the server:
    remove the socket path, make the plugin directory, bind the socket,
    build the router.  [srv.SetKeepAlivesEnabled(false)] changes nothing
    that is modelled and is left out. *)
Definition bindSocket (w : World) : M Router :=
  (fun p =>
     match osRemove w p with
     | (Some e, p') => if negb (IsNotExist e) then Return e p' else Ok tt p'
     | (None, p') => Ok tt p'
     end) ;;;
  orReturn (osMkdirAll w) ;;;
  orReturn (netListenUnix w) ;;;
  (fun p =>
     match configureRouter (dc p) with
     | Some r => Ok r p
     | None => Panic p
     end).

(** [Daemon] up to the call of [srv.Serve]: the value is the router
    installed as the server's handler. *)
Definition startDaemon (w : World) (fuel : nat) : M Router :=
  step withClient ;;;
  waitGlobal w fuel ;;;
  step (fun p => emit (Log InfoLevel (ReachedVolmaster (Master (dc p)))) p) ;;;
  updateMounts w ;;;
  step (go HandleDebugSignal) ;;;
  step (go watchGlobalTask) ;;;
  bindSocket w.

(** [Daemon] from [srv.Serve] on. *)
Definition serveDaemon (w : World) (r : Router) : M unit := fun p =>
  let p := emit (Serve r) p in
  match serveReturns w with
  | Some err => Exit (emit (Log FatalLevel (FatalServing err)) p)
  | None =>
      let p := emit CloseListener p in
      let p := if closeUnlinks w then withFiles false (pluginDir p) p else p in
      orReturn (osRemove w) p
  end.

Definition Daemon (w : World) (fuel : nat) : M unit :=
  r <~ startDaemon w fuel ;; serveDaemon w r.

(** The process at its start: a fresh [DaemonConfig], nothing started,
    nothing called, and the file system as it was left. *)
Definition bootProc (master host : string) (sock : bool) (dir : option Z) : Proc :=
  {| dc := NewDaemonConfig master host; goroutines := []; trace := [];
     nextChan := O; fetches := O; debugLogging := false;
     sockFile := sock; pluginDir := dir |}.

(** ** Vocabulary of the properties *)

(** The inverse of cutting: the pieces with the separator put back. *)
Fixpoint joinWith (sep : ascii) (pieces : list string) : string :=
  match pieces with
  | [] => EmptyString
  | [x] => x
  | x :: rest => x ++ String sep (joinWith sep rest)
  end.

(** [steps R c]: whatever way [c] ends, the state it ends in is related by
    [R] to the state it started from. *)
Definition steps {A : Type} (R : Proc -> Proc -> Prop) (c : M A) : Prop :=
  forall p, R p (stateOf (c p)).

(** The trace grows by events that all satisfy [P]. *)
Definition traceGrows (P : Event -> Prop) (p q : Proc) : Prop :=
  exists es, trace q = (trace p ++ es)%list /\ Forall P es.

(** What [updateMounts] may call: the logger, the driver constructor, the
    driver's [Mounted], and the master. *)
Definition reconcileEvent (e : Event) : Prop :=
  match e with
  | Log _ _ | NewMountDriver _ _ | RequestVolume _ _
  | ReportMount _ | ReportMountStatus _ => True
  | DriverCall _ op => op = storage.MountDriver storage.OpMounted
  | _ => False
  end.

(** The stop channel registered for a volume with the master client. *)
Definition stopChanOf (p : Proc) (V : string) : option chan :=
  c ← Client (dc p); client.stopChans c !! V.

Definition isHeartbeatFor (V : string) (t : Task) : bool :=
  match t with
  | HeartbeatMount _ u _ => String.eqb (config.UseVolume u) V
  | _ => false
  end.

Definition isPollerFor (V : string) (t : Task) : bool :=
  match t with
  | startRuntimePoll name _ => String.eqb name V
  | _ => false
  end.

(** The number of heartbeat goroutines started for a volume. *)
Definition heartbeats (p : Proc) (V : string) : nat :=
  length (List.filter (isHeartbeatFor V) (goroutines p)).

(** The number of runtime pollers started for a volume. *)
Definition pollers (p : Proc) (V : string) : nat :=
  length (List.filter (isPollerFor V) (goroutines p)).

(** What reconciliation leaves alone and what it only adds to: reference
    counts, global configuration and files stay; goroutines and registered
    stop channels are only added. *)
Definition reconciles (p q : Proc) : Prop :=
  mountCount (dc q) = mountCount (dc p)
  /\ Global (dc q) = Global (dc p)
  /\ sockFile q = sockFile p
  /\ (forall V, is_Some (stopChanOf p V) -> is_Some (stopChanOf q V))
  /\ (exists ts, goroutines q = (goroutines p ++ ts)%list).

(** A stop channel is registered for exactly the volumes that have a
    heartbeat. *)
Definition stopChanIffHeartbeat (p : Proc) : Prop :=
  forall V, is_Some (stopChanOf p V) <-> (0 < heartbeats p V)%nat.

(** The invariant of the spec: the reference count of a volume is zero
    exactly when it has no heartbeat, exactly when it has no stop channel. *)
Definition refcountInvariant (p : Proc) : Prop :=
  forall V,
    (refcount (dc p) V = 0 <-> heartbeats p V = O)
    /\ (heartbeats p V = O <-> stopChanOf p V = None).

(** ** A host with one surviving mount *)

Definition exampleGlobal : config.Global :=
  {| config.Debug := false; config.Timeout := 10 * Second;
     config.TTL := 5 * Second; config.MountPath := "/mnt/ceph" |}.

Definition exampleMount (name : string) : storage.Mount :=
  {| storage.Device := "/dev/rbd0";
     storage.Path := "/mnt/ceph/rbd/policy1.test";
     storage.DevMajor := 252;
     storage.DevMinor := 0;
     storage.MountVolume :=
       {| storage.Name := name; storage.Size := 0; storage.Params := ∅ |} |}.

(** One driver that reports one mount named [name]; the master knows every
    volume, grants every lease and serves [g] on the first request and
    [later] from then on; [srv.Serve] returns [served]. *)
Definition exampleWorld (name : string) (g later : config.Global)
    (served : option error) : World :=
  {| MountDrivers := ["ceph"];
     newMountDriver := fun _ _ => None;
     Mounted := fun _ _ => inl [exampleMount name];
     requestVolume := fun _ _ => (Some {| config.Unlocked := false |}, None);
     reportMount := fun _ => None;
     reportMountStatus := fun _ => None;
     getGlobalAnswer := fun n => match n with O => Decoded g | _ => Decoded later end;
     osRemoveFails := None;
     mkdirAllFails := None;
     listenUnixFails := None;
     serveReturns := served;
     closeUnlinks := true |}.

(** The process as [Daemon] has it when it calls [updateMounts] on a fresh
    [DaemonConfig]: the client is built and the global configuration is
    stored. *)
Definition readyProc (master host : string) (g : config.Global) : Proc :=
  withDc (setGlobal (Some g)
            (setClient (Some (client.NewDriver master))
               (NewDaemonConfig master host)))
    (bootProc master host false None).

(** The host of the system tests: volume [policy1/test] is mounted when the
    agent starts. *)
Definition mon0World : World :=
  exampleWorld "policy1/test" exampleGlobal exampleGlobal None.

Definition mon0Ready : Proc := readyProc "volmaster:9005" "mon0" exampleGlobal.

Definition mon0Reconciled : Proc := stateOf (updateMounts mon0World mon0Ready).

(** A step that keeps stop channels and heartbeats paired. *)
Definition keepsPairing (p q : Proc) : Prop :=
  stopChanIffHeartbeat p -> stopChanIffHeartbeat q.

(** The same surroundings with a master that answers every volume lookup
    with [answer]. *)
Definition masterAnswers (answer : option config.Volume * option error)
    (w : World) : World :=
  {| MountDrivers := MountDrivers w;
     newMountDriver := newMountDriver w;
     Mounted := Mounted w;
     requestVolume := fun _ _ => answer;
     reportMount := reportMount w;
     reportMountStatus := reportMountStatus w;
     getGlobalAnswer := getGlobalAnswer w;
     osRemoveFails := osRemoveFails w;
     mkdirAllFails := mkdirAllFails w;
     listenUnixFails := listenUnixFails w;
     serveReturns := serveReturns w;
     closeUnlinks := closeUnlinks w |}.

(** The state of the loop body of [updateMounts] once the master has been
    asked about a mount. *)
Definition askedMaster (m : storage.Mount) (p : Proc) : Proc :=
  let name := storage.Name (storage.MountVolume m) in
  emit (RequestVolume (nth 0 (Split name "/") "") (nth 1 (Split name "/") ""))
    (emit (Log InfoLevel (RefreshingMount name)) p).

(** The answer of the master about a mount. *)
Definition masterSays (w : World) (m : storage.Mount) : option error :=
  let name := storage.Name (storage.MountVolume m) in
  (requestVolume w (nth 0 (Split name "/") "") (nth 1 (Split name "/") "")).2.

(** The volume name grammar of the spec: [policy "/" name], each segment a
    non-empty string without ["/"]. *)
Definition specVolumeName (s : string) : bool :=
  match Split s "/" with
  | [policy; name] => negb (String.eqb policy "") && negb (String.eqb name "")
  | _ => false
  end.

(** A fetch of the global configuration that stores nothing. *)
Definition fetchFailed (r : FetchResult) : bool :=
  match r with
  | Decoded _ => false
  | GetFailed | ReadFailed | DecodeFailed => true
  end.

(** One turn of the first loop of [Daemon] while the configuration is
    missing: the request, the error logged by [getGlobal], the line
    "Global configuration is missing", and a sleep of one second. *)
Definition missingTurn (master : string) : list Event :=
  [HttpGet ("http://" ++ master ++ "/global");
   Log ErrorLevel CouldNotRequestGlobal;
   Log ErrorLevel (GlobalMissing master);
   Sleep Second].

(** The events up to the binding of the socket: none binds, serves or
    closes. *)
Definition beforeBind (e : Event) : Prop :=
  match e with
  | ListenUnix _ | Serve _ | CloseListener => False
  | _ => True
  end.

(** The same surroundings with other answers to [GET /global]. *)
Definition globalAnswers (answers : nat -> FetchResult) (w : World) : World :=
  {| MountDrivers := MountDrivers w;
     newMountDriver := newMountDriver w;
     Mounted := Mounted w;
     requestVolume := requestVolume w;
     reportMount := reportMount w;
     reportMountStatus := reportMountStatus w;
     getGlobalAnswer := answers;
     osRemoveFails := osRemoveFails w;
     mkdirAllFails := mkdirAllFails w;
     listenUnixFails := listenUnixFails w;
     serveReturns := serveReturns w;
     closeUnlinks := closeUnlinks w |}.

(** The host of the system tests when the master is down at first: the
    first request for the global configuration fails. *)
Definition mon0MasterDown : World :=
  globalAnswers
    (fun n => match n with O => GetFailed | _ => Decoded exampleGlobal end)
    mon0World.

(** The agent of the system tests at its start; a stale socket file is
    there. *)
Definition mon0Boot : Proc :=
  bootProc "volmaster:9005" "mon0" true (Some perm0700).

(** The handler registered under a path in [routeMap], if any. *)
Definition registered (path : string) : option Action :=
  snd <$> List.find (fun kv => String.eqb kv.1 path) routeMap.

(** The name [configureRouter] hands to [logHandler]: [parts[1]]. *)
Definition verbOf (key : string) : string :=
  nth 1 (SplitN key "." 2) "".

(** Where a router sends a request when it holds the nine routes of
    [routeMap], each wrapped by [logHandler] with the flag [debug]; the
    catch-all route, registered or not, takes no request. *)
Definition dispatch (debug : bool) (method path : string) : option HandlerFunc :=
  if String.eqb method "POST" then
    match registered path with
    | Some a => Some (logHandler (verbOf path) debug a)
    | None => None
    end
  else None.

(** The router of an agent configured with debug on: the nine routes and,
    after them, the catch-all route. *)
Definition debugRouter : Router :=
  {| methods := ["POST"];
     routes := (map (fun kv => (Literal kv.1, logHandler (verbOf kv.1) true kv.2))
                  routeMap
                ++ [(AnyPath "action", bare dc_action)])%list |}.

(** The host of the system tests with debug switched on in the global
    configuration at startup and switched off by the time [watchGlobal]
    polls. *)
Definition debugGlobal : config.Global :=
  {| config.Debug := true; config.Timeout := 10 * Second;
     config.TTL := 5 * Second; config.MountPath := "/mnt/ceph" |}.

Definition mon0DebugThenOff : World :=
  exampleWorld "policy1/test" debugGlobal exampleGlobal None.


(** The router of an agent configured with debug off. *)
Definition plainRouter : Router :=
  {| methods := ["POST"];
     routes := map (fun kv => (Literal kv.1, logHandler (verbOf kv.1) false kv.2))
                 routeMap |}.


(** The volume names of the mounts one driver reports. *)
Definition namesOf (w : World) (g : config.Global) (driverName : string)
  : list string :=
  match Mounted w driverName (config.Timeout g) with
  | inl mounts => map (fun m => storage.Name (storage.MountVolume m)) mounts
  | inr _ => []
  end.

(** The volume names of all the mounts the scan can meet. *)
Definition scannedNames (w : World) (g : config.Global) : list string :=
  concat (map (namesOf w g) (MountDrivers w)).

(** How often a name occurs in a list of names. *)
Definition occurrences (V : string) (names : list string) : nat :=
  length (List.filter (String.eqb V) names).

(** The sleeps and the requests for the global configuration in a trace. *)
Definition isSleep (e : Event) : bool :=
  match e with Sleep _ => true | _ => false end.

Definition isHttpGet (e : Event) : bool :=
  match e with HttpGet _ => true | _ => false end.

Definition sleeps (p : Proc) : nat := length (List.filter isSleep (trace p)).

Definition requests (p : Proc) : nat := length (List.filter isHttpGet (trace p)).

(** The agent of the system tests when [Daemon] calls [srv.Serve]. *)
Definition mon0Serving : Proc := stateOf (startDaemon mon0World 1 mon0Boot).

(** The same surroundings with drivers [names] whose constructor answers
    [built] and whose [Mounted] answers [listing]. *)
Definition withDrivers (names : list string)
    (built : string -> option error)
    (listing : string -> list storage.Mount + error) (w : World) : World :=
  {| MountDrivers := names;
     newMountDriver := fun name _ => built name;
     Mounted := fun name _ => listing name;
     requestVolume := requestVolume w;
     reportMount := reportMount w;
     reportMountStatus := reportMountStatus w;
     getGlobalAnswer := getGlobalAnswer w;
     osRemoveFails := osRemoveFails w;
     mkdirAllFails := mkdirAllFails w;
     listenUnixFails := listenUnixFails w;
     serveReturns := serveReturns w;
     closeUnlinks := closeUnlinks w |}.

(** A host with two drivers: [ceph] lists one mount, and [nfs] cannot be
    constructed. *)
Definition nfsCannotBeBuilt : World :=
  withDrivers ["ceph"; "nfs"; "null"]
    (fun name => if String.eqb name "nfs"
                 then Some (errOther "nfs: no such backend") else None)
    (fun _ => inl [exampleMount "policy1/test"])
    mon0World.

(** A host where [nfs] is constructed and cannot list its mounts. *)
Definition nfsCannotList : World :=
  withDrivers ["ceph"; "nfs"; "null"]
    (fun _ => None)
    (fun name => if String.eqb name "nfs"
                 then inr (errOther "nfs: mount scan timed out")
                 else inl [exampleMount "policy1/test"])
    mon0World.

(** The lease [updateMounts] builds for a mount of a volume: held by the
    host, or by the placeholder of unlocked volumes. *)
Definition leaseOf (host : string) (m : storage.Mount) (vol : config.Volume)
  : config.UseMount :=
  {| config.UseVolume := storage.Name (storage.MountVolume m);
     config.Reason := lock.ReasonMount;
     config.Hostname := if config.Unlocked vol then lock.Unlocked else host |}.

(** The errors the [switch] of [updateMounts] has no case for: nil, and
    every error that is neither of the two sentinels. *)
Definition unnamedError (err : option error) : bool :=
  match err with
  | Some errVolumeNotFound | Some errVolumeResponse => false
  | _ => true
  end.

(** What the master answers about a mount, volume and error. *)
Definition masterAnswer (w : World) (m : storage.Mount)
  : option config.Volume * option error :=
  let name := storage.Name (storage.MountVolume m) in
  requestVolume w (nth 0 (Split name "/") "") (nth 1 (Split name "/") "").

(** The same surroundings with a master that answers the two lease calls
    with [claimed] and [recorded]. *)
Definition leaseAnswers (claimed recorded : option error) (w : World) : World :=
  {| MountDrivers := MountDrivers w;
     newMountDriver := newMountDriver w;
     Mounted := Mounted w;
     requestVolume := requestVolume w;
     reportMount := fun _ => claimed;
     reportMountStatus := fun _ => recorded;
     getGlobalAnswer := getGlobalAnswer w;
     osRemoveFails := osRemoveFails w;
     mkdirAllFails := mkdirAllFails w;
     listenUnixFails := listenUnixFails w;
     serveReturns := serveReturns w;
     closeUnlinks := closeUnlinks w |}.

(** Pollers and heartbeats are started in pairs between two states. *)
Definition tasksPaired (p q : Proc) : Prop :=
  forall V,
    (pollers q V + heartbeats p V = pollers p V + heartbeats q V)%nat.

(** Nothing is started or registered for a volume between two states. *)
Definition untouched (V : string) (p q : Proc) : Prop :=
  heartbeats q V = heartbeats p V
  /\ pollers q V = pollers p V
  /\ stopChanOf q V = stopChanOf p V.

(** The calls the loop body of [updateMounts] can make for one mount, after
    the refresh is logged and the master asked: nothing more (a nil
    volume), the warning of a missing volume, the fatal line, one report of
    a lease, or the report followed by the status of the same lease. *)
Definition afterAsking (es : list Event) : Prop :=
  es = []
  \/ es = [Log WarnLevel VolumeNotFoundSkipping]
  \/ es = [Log FatalLevel VolmasterNotContacted]
  \/ exists u, es = [ReportMount u] \/ es = [ReportMount u; ReportMountStatus u].

(** A volume name for which the scan never starts anything: the name has
    not two parts, or the master answers the lookup of its two parts with
    one of the two sentinel errors or with no volume. *)
Definition neverRefreshed (w : World) (V : string) : Prop :=
  length (Split V "/") <> 2%nat
  \/ (requestVolume w (nth 0 (Split V "/") "") (nth 1 (Split V "/") "")).2
     = Some errVolumeNotFound
  \/ (requestVolume w (nth 0 (Split V "/") "") (nth 1 (Split V "/") "")).2
     = Some errVolumeResponse
  \/ (requestVolume w (nth 0 (Split V "/") "") (nth 1 (Split V "/") "")).1
     = None.



(** * Properties *)

(** ** Cutting strings *)

Lemma genSplit_cons (s : string) (sep : ascii) (k : nat) :
  exists h t, genSplit s sep k = h :: t.
Proof.
  revert k; induction s as [|c r IH]; intros [|k]; simpl; eauto.
  destruct (Ascii.eqb c sep); eauto.
  destruct (IH (S k)) as (h & t & E). rewrite E. eauto.
Qed.

Lemma genSplit_join (s : string) (sep : ascii) (k : nat) :
  joinWith sep (genSplit s sep k) = s.
Proof.
  revert k; induction s as [|c r IH]; intros [|k]; simpl; try reflexivity.
  destruct (Ascii.eqb_spec c sep) as [->|Hne].
  - specialize (IH k). destruct (genSplit_cons r sep k) as (h & t & E).
    rewrite E in *.
    change (joinWith sep (EmptyString :: h :: t))
      with (String sep (joinWith sep (h :: t))).
    now rewrite IH.
  - specialize (IH (S k)). destruct (genSplit_cons r sep (S k)) as (h & t & E).
    rewrite E in *. destruct t; simpl in *; now rewrite <- IH.
Qed.

Lemma genSplit_length (s : string) (sep : ascii) (k : nat) :
  length (genSplit s sep k) = S (Nat.min k (countByte sep s)).
Proof.
  revert k; induction s as [|c r IH]; intros [|k]; simpl; try reflexivity.
  destruct (Ascii.eqb c sep).
  - simpl. now rewrite IH.
  - specialize (IH (S k)). destruct (genSplit_cons r sep (S k)) as (h & t & E).
    rewrite E in *. simpl in *. exact IH.
Qed.

Lemma genSplit_clean (s : string) (sep : ascii) (k : nat) :
  (countByte sep s <= k)%nat ->
  Forall (fun x => countByte sep x = O) (genSplit s sep k).
Proof.
  revert k; induction s as [|c r IH]; intros [|k] Hk; simpl in *.
  - repeat constructor.
  - repeat constructor.
  - constructor; [|constructor]. simpl. lia.
  - destruct (Ascii.eqb c sep) eqn:Ec.
    + constructor; [reflexivity|]. apply IH. lia.
    + assert (Hr : (countByte sep r <= S k)%nat) by lia.
      specialize (IH (S k) Hr).
      destruct (genSplit_cons r sep (S k)) as (h & t & E).
      rewrite E in *. inversion IH; subst.
      constructor; [simpl; rewrite Ec; simpl; assumption | assumption].
Qed.

Lemma countByte_le_length (sep : ascii) (s : string) :
  (countByte sep s <= String.length s)%nat.
Proof.
  induction s as [|c r IH]; simpl; [lia|].
  destruct (Ascii.eqb c sep); lia.
Qed.

(** [strings.Split] gives one piece more than there are separators. *)
Lemma Split_length (s : string) (sep : ascii) :
  length (Split s sep) = S (countByte sep s).
Proof.
  unfold Split. rewrite genSplit_length.
  pose proof (countByte_le_length sep s). lia.
Qed.

(** Two pieces: the string is the first piece, one separator, the second
    piece, and neither piece holds a separator. *)
Lemma Split_two (s : string) (sep : ascii) :
  length (Split s sep) = 2%nat ->
  exists a b, Split s sep = [a; b] /\ s = a ++ String sep b
              /\ countByte sep a = O /\ countByte sep b = O.
Proof.
  intros Hlen.
  pose proof (genSplit_join s sep (String.length s)) as Hj.
  pose proof (genSplit_clean s sep (String.length s)
                (countByte_le_length sep s)) as Hc.
  unfold Split in *.
  destruct (genSplit s sep (String.length s)) as [|a [|b [|c t]]];
    simpl in Hlen; try discriminate.
  exists a, b. apply Forall_cons in Hc as [Ha Hc].
  apply Forall_cons in Hc as [Hb _].
  simpl in Hj. auto.
Qed.

(** ** Frames: what a computation may change *)

Section Frames.

Variable R : Proc -> Proc -> Prop.
Hypothesis R_refl : forall p, R p p.
Hypothesis R_trans : forall p q r, R p q -> R q r -> R p r.

Lemma steps_bind {A B : Type} (c : M A) (k : A -> M B) :
  steps R c -> (forall a, steps R (k a)) -> steps R (bind c k).
Proof using R_trans.
  intros Hc Hk p. unfold bind. specialize (Hc p).
  destruct (c p) as [a q|e q|q|q|q]; simpl in *; try exact Hc.
  eapply R_trans; [exact Hc|apply Hk].
Qed.

Lemma steps_range {A : Type} (body : A -> M unit) (xs : list A) :
  (forall x, In x xs -> steps R (body x)) -> steps R (range body xs).
Proof using R_refl R_trans.
  induction xs as [|x rest IH]; intros Hb; simpl.
  - intros p. apply R_refl.
  - apply steps_bind; [apply Hb; now left|].
    intros _. apply IH. intros y Hy. apply Hb. now right.
Qed.

End Frames.

Lemma traceGrows_refl (P : Event -> Prop) (p : Proc) : traceGrows P p p.
Proof. exists []. split; [now rewrite app_nil_r|constructor]. Qed.

Lemma traceGrows_trans (P : Event -> Prop) (p q r : Proc) :
  traceGrows P p q -> traceGrows P q r -> traceGrows P p r.
Proof.
  intros (es1 & E1 & F1) (es2 & E2 & F2). exists (es1 ++ es2)%list. split.
  - now rewrite E2, E1, app_assoc.
  - now apply Forall_app.
Qed.

Lemma traceGrows_emit (P : Event -> Prop) (e : Event) (p q : Proc) :
  P e -> traceGrows P p q -> traceGrows P p (emit e q).
Proof.
  intros He Hq. eapply traceGrows_trans; [exact Hq|].
  exists [e]. split; [reflexivity|now repeat constructor].
Qed.

Lemma traceGrows_same (P : Event -> Prop) (p q : Proc) :
  trace q = trace p -> traceGrows P p q.
Proof. intros E. exists []. split; [now rewrite app_nil_r|constructor]. Qed.

Lemma traceGrows_weaken (P Q : Event -> Prop) (p q : Proc) :
  (forall e, P e -> Q e) -> traceGrows P p q -> traceGrows Q p q.
Proof.
  intros HPQ (es & E & F). exists es. split; [exact E|].
  eapply Forall_impl; eauto.
Qed.

Lemma range_Ok_inv {A : Type} (R : Proc -> Proc -> Prop)
    (body : A -> M unit) (xs : list A) :
  (forall p, R p p) ->
  (forall p q r, R p q -> R q r -> R p r) ->
  (forall x, steps R (body x)) ->
  forall p p', range body xs p = Ok tt p' ->
  forall x, In x xs ->
  exists q q', R p q /\ body x q = Ok tt q' /\ R q' p'.
Proof.
  intros Hrefl Htrans Hbody.
  induction xs as [|y rest IH]; intros p p' Hrun x Hin; [destruct Hin|].
  simpl in Hrun. unfold bind in Hrun.
  destruct (body y p) as [[] q1| | | |] eqn:Ey; try discriminate.
  assert (Hrest : R q1 p').
  { pose proof (steps_range R Hrefl Htrans body rest
                  (fun x _ => Hbody x) q1) as H.
    now rewrite Hrun in H. }
  destruct Hin as [->|Hin].
  - exists p, q1. auto.
  - destruct (IH q1 p' Hrun x Hin) as (q & q' & H1 & H2 & H3).
    exists q, q'. split; [|auto].
    eapply Htrans; [|exact H1].
    pose proof (Hbody y p) as H. now rewrite Ey in H.
Qed.

(** ** The events of reconciliation *)

Lemma startTasks_trace (m : storage.Mount) (u : config.UseMount) (p : Proc) :
  trace (stateOf (startTasks m u p)) = trace p.
Proof.
  unfold startTasks. simpl.
  destruct (Global (dc p)), (Client (dc p)); reflexivity.
Qed.

#[local] Ltac grow :=
  repeat first
    [ apply traceGrows_refl
    | apply traceGrows_emit; [exact I|]
    | apply traceGrows_same; apply startTasks_trace ].

Lemma refreshMount_events (w : World) (m : storage.Mount) :
  steps (traceGrows reconcileEvent) (refreshMount w m).
Proof.
  intros p. unfold refreshMount.
  destruct (negb _); simpl; [grow|].
  destruct (requestVolume w _ _) as [vol err].
  destruct err as [[| | |msg]|]; simpl; try solve [grow];
    (destruct vol as [vol|]; [|simpl; grow]);
    (destruct (Client (dc p)); [|simpl; grow]);
    (destruct (reportMount w _);
     [destruct (reportMountStatus w _); simpl|]);
    try solve [grow];
    (eapply traceGrows_trans; [|apply traceGrows_same; apply startTasks_trace]);
    grow.
Qed.

Lemma scanDriver_events (w : World) (d : string) :
  steps (traceGrows reconcileEvent) (scanDriver w d).
Proof.
  intros p. unfold scanDriver.
  destruct (Global (dc p)) as [g|]; simpl; [|grow].
  destruct (newMountDriver w d _); simpl; [grow|].
  destruct (Mounted w d _) as [ms|err]; simpl.
  - eapply traceGrows_trans;
      [|apply (steps_range _ (traceGrows_refl _) (traceGrows_trans _));
        intros x _; apply refreshMount_events].
    apply traceGrows_emit; [reflexivity|]. grow.
  - apply traceGrows_emit; [reflexivity|]. grow.
Qed.

Lemma updateMounts_events (w : World) :
  steps (traceGrows reconcileEvent) (updateMounts w).
Proof.
  apply (steps_range _ (traceGrows_refl _) (traceGrows_trans _)).
  intros d _. apply scanDriver_events.
Qed.

(** C9. The startup reconciler never calls the driver's [Mount]: whatever
    the world answers and however [updateMounts] ends, every driver call it
    adds to the trace is a call of [Mounted] (so none is [Mount] or
    [Unmount]), and the remaining calls go to the logger, the driver
    constructor and the master. *)
Theorem updateMounts_only_calls_Mounted (w : World) (p : Proc) :
  exists es,
    trace (stateOf (updateMounts w p)) = (trace p ++ es)%list
    /\ Forall reconcileEvent es
    /\ (forall d op, In (DriverCall d op) es ->
          op = storage.MountDriver storage.OpMounted)
    /\ (forall d, ~ In (DriverCall d (storage.MountDriver storage.OpMount)) es).
Proof.
  destruct (updateMounts_events w p) as (es & E & F).
  exists es. split; [exact E|]. split; [exact F|].
  assert (H : forall d op, In (DriverCall d op) es ->
                op = storage.MountDriver storage.OpMounted).
  { intros d op Hin. rewrite Forall_forall in F.
    apply list_elem_of_In in Hin. exact (F _ Hin). }
  split; [exact H|].
  intros d Hin. specialize (H _ _ Hin). discriminate.
Qed.

(** ** What reconciliation changes *)

Lemma reconciles_refl (p : Proc) : reconciles p p.
Proof.
  repeat split; auto. exists []. now rewrite app_nil_r.
Qed.

Lemma reconciles_trans (p q r : Proc) :
  reconciles p q -> reconciles q r -> reconciles p r.
Proof.
  intros (A1 & A2 & A3 & A4 & ts1 & A5) (B1 & B2 & B3 & B4 & ts2 & B5).
  repeat split; try congruence; auto.
  exists (ts1 ++ ts2)%list. now rewrite B5, A5, app_assoc.
Qed.

Lemma reconciles_emit (e : Event) (p q : Proc) :
  reconciles p q -> reconciles p (emit e q).
Proof. intros H. exact H. Qed.

Lemma heartbeats_app (p : Proc) (V : string) (ts : list Task) (q : Proc) :
  goroutines q = (goroutines p ++ ts)%list ->
  heartbeats q V = (heartbeats p V + length (List.filter (isHeartbeatFor V) ts))%nat.
Proof.
  intros E. unfold heartbeats. now rewrite E, List.filter_app, length_app.
Qed.

Lemma pollers_app (p : Proc) (V : string) (ts : list Task) (q : Proc) :
  goroutines q = (goroutines p ++ ts)%list ->
  pollers q V = (pollers p V + length (List.filter (isPollerFor V) ts))%nat.
Proof.
  intros E. unfold pollers. now rewrite E, List.filter_app, length_app.
Qed.

(** When the two [go] statements run, the poller and the heartbeat are
    started, the channel handed to the heartbeat is the one registered,
    and nothing else of the daemon changes. *)
Lemma startTasks_Ok (m : storage.Mount) (u : config.UseMount) (p q : Proc) :
  startTasks m u p = Ok tt q ->
  exists g,
    Global (dc p) = Some g
    /\ stopChanOf q (storage.Name (storage.MountVolume m)) = Some (nextChan p)
    /\ (forall V, V <> storage.Name (storage.MountVolume m) ->
          stopChanOf q V = stopChanOf p V)
    /\ goroutines q =
         (goroutines p ++
            [startRuntimePoll (storage.Name (storage.MountVolume m)) m;
             HeartbeatMount (config.TTL g) u (nextChan p)])%list
    /\ mountCount (dc q) = mountCount (dc p)
    /\ Global (dc q) = Global (dc p)
    /\ sockFile q = sockFile p.
Proof.
  unfold startTasks. simpl.
  destruct (Global (dc p)) as [g|] eqn:Eg; [|discriminate].
  destruct (Client (dc p)) as [c|] eqn:Ec; [|discriminate].
  intros [= <-]. exists g. unfold stopChanOf. simpl. rewrite Ec. simpl.
  repeat split; auto.
  - apply lookup_insert_eq.
  - intros V HV. now rewrite lookup_insert_ne.
  - now rewrite <- app_assoc.
Qed.

(** When they do not run, a nil pointer stopped the function after the
    first of them. *)
Lemma startTasks_not_Ok (m : storage.Mount) (u : config.UseMount) (p : Proc) :
  (forall q, startTasks m u p <> Ok tt q) ->
  stateOf (startTasks m u p)
  = go (startRuntimePoll (storage.Name (storage.MountVolume m)) m) p.
Proof.
  unfold startTasks. simpl. intros H.
  destruct (Global (dc p)) as [g|]; [|reflexivity].
  destruct (Client (dc p)) as [c|]; [|reflexivity].
  exfalso. eapply H. reflexivity.
Qed.

Lemma startTasks_cases (m : storage.Mount) (u : config.UseMount) (p : Proc) :
  (exists q, startTasks m u p = Ok tt q)
  \/ stateOf (startTasks m u p)
     = go (startRuntimePoll (storage.Name (storage.MountVolume m)) m) p.
Proof.
  destruct (startTasks m u p) as [[] q| | | |] eqn:E; eauto;
    right; rewrite <- E; apply startTasks_not_Ok; intros q' E'; congruence.
Qed.

Lemma startTasks_reconciles (m : storage.Mount) (u : config.UseMount) :
  steps reconciles (startTasks m u).
Proof.
  intros p. destruct (startTasks_cases m u p) as [[q E]|E].
  - rewrite E. simpl.
    destruct (startTasks_Ok _ _ _ _ E) as (g & _ & H1 & H2 & H3 & H4 & H5 & H6).
    repeat split; auto; [|eauto].
    intros V HV.
    destruct (decide (V = storage.Name (storage.MountVolume m))) as [->|Hne].
    + rewrite H1. eauto.
    + now rewrite H2.
  - rewrite E. repeat split; auto. simpl. eauto.
Qed.

#[local] Ltac recon :=
  simpl; repeat apply reconciles_emit; apply reconciles_refl.

Lemma refreshMount_reconciles (w : World) (m : storage.Mount) :
  steps reconciles (refreshMount w m).
Proof.
  intros p. unfold refreshMount.
  destruct (negb _); [recon|].
  destruct (requestVolume w _ _) as [vol err].
  destruct err as [[| | |msg]|]; try solve [recon];
    (destruct vol as [vol|]; [|recon]);
    (destruct (Client (dc _)) eqn:Ec; [|recon]);
    (destruct (reportMount w _);
     [destruct (reportMountStatus w _)|]);
    try solve [recon];
    match goal with
    | |- reconciles ?p0 (stateOf (startTasks ?m ?u ?q)) =>
        apply (reconciles_trans p0 q);
          [recon | exact (startTasks_reconciles m u q)]
    end.
Qed.

Lemma scanDriver_reconciles (w : World) (d : string) :
  steps reconciles (scanDriver w d).
Proof.
  intros p. unfold scanDriver.
  destruct (Global (dc p)) as [g|]; [|recon].
  destruct (newMountDriver w d _); [recon|].
  destruct (Mounted w d _) as [ms|err]; [|recon].
  match goal with
  | |- reconciles ?p0 (stateOf (range _ _ ?q)) =>
      apply (reconciles_trans p0 q);
        [recon
        | exact (steps_range _ reconciles_refl reconciles_trans _ ms
                   (fun x _ => refreshMount_reconciles w x) q)]
  end.
Qed.

Lemma updateMounts_reconciles (w : World) :
  steps reconciles (updateMounts w).
Proof.
  apply (steps_range _ reconciles_refl reconciles_trans).
  intros d _. apply scanDriver_reconciles.
Qed.

(** A mount with a two-part name that the master does not deny: when the
    loop body runs to its end, it has registered a fresh stop channel for
    the volume and started its poller and its heartbeat, and it has left
    the reference counts alone. *)
Lemma refreshMount_known (w : World) (m : storage.Mount) (p q : Proc) :
  let name := storage.Name (storage.MountVolume m) in
  refreshMount w m p = Ok tt q ->
  length (Split name "/") = 2%nat ->
  (requestVolume w (nth 0 (Split name "/") "") (nth 1 (Split name "/") "")).2
    <> Some errVolumeNotFound ->
  exists g u,
    Global (dc p) = Some g
    /\ config.UseVolume u = name
    /\ stopChanOf q name = Some (nextChan p)
    /\ goroutines q =
         (goroutines p ++
            [startRuntimePoll name m;
             HeartbeatMount (config.TTL g) u (nextChan p)])%list
    /\ mountCount (dc q) = mountCount (dc p).
Proof.
  intros name. unfold refreshMount. fold name. intros Hrun Hlen Hknown.
  rewrite Hlen in Hrun. simpl in Hrun.
  destruct (requestVolume w _ _) as [vol err]. simpl in Hknown.
  assert (Htasks : forall u p0,
             config.UseVolume u = name ->
             Global (dc p0) = Global (dc p) -> nextChan p0 = nextChan p ->
             goroutines p0 = goroutines p ->
             mountCount (dc p0) = mountCount (dc p) ->
             startTasks m u p0 = Ok tt q ->
             exists g u,
               Global (dc p) = Some g
               /\ config.UseVolume u = name
               /\ stopChanOf q name = Some (nextChan p)
               /\ goroutines q =
                    (goroutines p ++
                       [startRuntimePoll name m;
                        HeartbeatMount (config.TTL g) u (nextChan p)])%list
               /\ mountCount (dc q) = mountCount (dc p)).
  { intros u p0 Hu Hg Hn Hgo Hmc E.
    destruct (startTasks_Ok _ _ _ _ E) as (g & A1 & A2 & _ & A4 & A5 & _).
    exists g, u. fold name in A2, A4.
    rewrite <- Hg, <- Hn, <- Hgo, <- Hmc. auto. }
  destruct err as [[| | |msg]|]; try congruence;
    (destruct vol as [vol|]; [|discriminate]);
    (destruct (Client (dc _)); [|discriminate]);
    (destruct (reportMount w _);
     [destruct (reportMountStatus w _); [discriminate|]|]);
    (eapply Htasks; [| | | | |exact Hrun]; reflexivity).
Qed.

(** C1, as the code has it.  When the startup reconciler returns normally,
    every surviving mount of every driver whose volume name has two parts
    and which the master does not report missing has a stop channel
    registered with the master client, a heartbeat and a runtime poller
    started for it; the reference counts are left exactly as they were, so
    none is set to 1. *)
Theorem updateMounts_restarts_tasks_keeps_refcount
    (w : World) (p p' : Proc) (g : config.Global)
    (d : string) (ms : list storage.Mount) (m : storage.Mount) :
  let name := storage.Name (storage.MountVolume m) in
  Global (dc p) = Some g ->
  updateMounts w p = Ok tt p' ->
  In d (MountDrivers w) ->
  Mounted w d (config.Timeout g) = inl ms ->
  In m ms ->
  length (Split name "/") = 2%nat ->
  (requestVolume w (nth 0 (Split name "/") "") (nth 1 (Split name "/") "")).2
    <> Some errVolumeNotFound ->
  is_Some (stopChanOf p' name)
  /\ (0 < heartbeats p' name)%nat
  /\ (0 < pollers p' name)%nat
  /\ mountCount (dc p') = mountCount (dc p)
  /\ (forall V, refcount (dc p') V = refcount (dc p) V).
Proof.
  intros name Hg Hrun Hd Hms Hm Hlen Hknown.
  pose proof (updateMounts_reconciles w p) as Hall.
  rewrite Hrun in Hall. simpl in Hall.
  destruct Hall as (Hmc & _).
  destruct (range_Ok_inv reconciles _ _ reconciles_refl reconciles_trans
              (scanDriver_reconciles w) p p' Hrun d Hd)
    as (q1 & q2 & R1 & Hscan & R2).
  assert (Hg1 : Global (dc q1) = Some g)
    by (destruct R1 as (_ & E & _); congruence).
  unfold scanDriver in Hscan. rewrite Hg1 in Hscan.
  destruct (newMountDriver w d _); [discriminate|].
  rewrite Hms in Hscan.
  destruct (range_Ok_inv reconciles _ _ reconciles_refl reconciles_trans
              (refreshMount_reconciles w) _ _ Hscan m Hm)
    as (q3 & q4 & R3 & Hbody & R4).
  destruct (refreshMount_known w m q3 q4 Hbody Hlen Hknown)
    as (g' & u & _ & Hu & Hstop & Hgo & _).
  fold name in Hu, Hstop, Hgo.
  pose proof (reconciles_trans _ _ _ R4 R2) as (_ & _ & _ & Hmono & ts & Hts).
  split; [apply Hmono; rewrite Hstop; eauto|].
  assert (Hhb : (0 < heartbeats q4 name)%nat).
  { rewrite (heartbeats_app q3 name _ q4 Hgo). simpl.
    rewrite Hu, String.eqb_refl. simpl. lia. }
  assert (Hpl : (0 < pollers q4 name)%nat).
  { rewrite (pollers_app q3 name _ q4 Hgo). simpl.
    rewrite String.eqb_refl. simpl. lia. }
  rewrite (heartbeats_app q4 name ts p' Hts), (pollers_app q4 name ts p' Hts).
  repeat split; try lia; [exact Hmc|].
  intros V. unfold refcount. now rewrite Hmc.
Qed.

Lemma mon0_reconciles : updateMounts mon0World mon0Ready = Ok tt mon0Reconciled.
Proof. vm_compute. reflexivity. Qed.

Lemma updateMounts_restarts_tasks_keeps_refcount_witness :
  is_Some (stopChanOf mon0Reconciled "policy1/test")
  /\ (0 < heartbeats mon0Reconciled "policy1/test")%nat
  /\ (0 < pollers mon0Reconciled "policy1/test")%nat
  /\ mountCount (dc mon0Reconciled) = mountCount (dc mon0Ready)
  /\ (forall V, refcount (dc mon0Reconciled) V = refcount (dc mon0Ready) V).
Proof.
  apply (updateMounts_restarts_tasks_keeps_refcount mon0World mon0Ready
           mon0Reconciled exampleGlobal "ceph"
           [exampleMount "policy1/test"] (exampleMount "policy1/test")).
  - reflexivity.
  - vm_compute. reflexivity.
  - simpl. left. reflexivity.
  - reflexivity.
  - simpl. left. reflexivity.
  - vm_compute. reflexivity.
  - vm_compute. discriminate.
Defined.

(** C1, as the claim states it, fails on the host of the system tests:
    reconciliation returns normally, the heartbeat of [policy1/test] is
    started, and the reference count of the volume is 0, not 1. *)
Lemma updateMounts_does_not_seed_refcount :
  updateMounts mon0World mon0Ready = Ok tt mon0Reconciled
  /\ heartbeats mon0Reconciled "policy1/test" = 1%nat
  /\ mountCount (dc mon0Reconciled) !! "policy1/test" = None
  /\ refcount (dc mon0Reconciled) "policy1/test" <> 1.
Proof.
  split; [exact mon0_reconciles|].
  split; [vm_compute; reflexivity|].
  split; [vm_compute; reflexivity|].
  vm_compute. discriminate.
Qed.

(** ** Stop channels and heartbeats go together *)

Lemma keepsPairing_refl (p : Proc) : keepsPairing p p.
Proof. intros H. exact H. Qed.

Lemma keepsPairing_trans (p q r : Proc) :
  keepsPairing p q -> keepsPairing q r -> keepsPairing p r.
Proof. unfold keepsPairing. auto. Qed.

Lemma keepsPairing_emit (e : Event) (p q : Proc) :
  keepsPairing p q -> keepsPairing p (emit e q).
Proof. intros H. exact H. Qed.

Lemma startTasks_keepsPairing (m : storage.Mount) (u : config.UseMount) :
  config.UseVolume u = storage.Name (storage.MountVolume m) ->
  steps keepsPairing (startTasks m u).
Proof.
  intros Hu p Hinv V.
  destruct (startTasks_cases m u p) as [[q E]|E]; rewrite E; simpl.
  - destruct (startTasks_Ok _ _ _ _ E) as (g & _ & H1 & H2 & H3 & _).
    rewrite (heartbeats_app p V _ q H3). simpl. rewrite Hu.
    destruct (String.eqb_spec (storage.Name (storage.MountVolume m)) V)
      as [<-|Hne]; simpl.
    + rewrite H1. split; [lia|eauto].
    + rewrite H2 by congruence. rewrite (Hinv V). lia.
  - specialize (Hinv V). unfold heartbeats in *. simpl.
    rewrite List.filter_app, length_app. simpl.
    rewrite Nat.add_0_r. exact Hinv.
Qed.

#[local] Ltac pairing :=
  simpl; repeat apply keepsPairing_emit; apply keepsPairing_refl.

Lemma refreshMount_keepsPairing (w : World) (m : storage.Mount) :
  steps keepsPairing (refreshMount w m).
Proof.
  intros p. unfold refreshMount.
  destruct (negb _); [pairing|].
  destruct (requestVolume w _ _) as [vol err].
  destruct err as [[| | |msg]|]; try solve [pairing];
    (destruct vol as [vol|]; [|pairing]);
    (destruct (Client (dc _)) eqn:Ec; [|pairing]);
    (destruct (reportMount w _);
     [destruct (reportMountStatus w _)|]);
    try solve [pairing];
    match goal with
    | |- keepsPairing ?p0 (stateOf (startTasks ?m ?u ?q)) =>
        apply (keepsPairing_trans p0 q);
          [pairing | exact (startTasks_keepsPairing m u eq_refl q)]
    end.
Qed.

Lemma scanDriver_keepsPairing (w : World) (d : string) :
  steps keepsPairing (scanDriver w d).
Proof.
  intros p. unfold scanDriver.
  destruct (Global (dc p)) as [g|]; [|pairing].
  destruct (newMountDriver w d _); [pairing|].
  destruct (Mounted w d _) as [ms|err]; [|pairing].
  match goal with
  | |- keepsPairing ?p0 (stateOf (range _ _ ?q)) =>
      apply (keepsPairing_trans p0 q);
        [pairing
        | exact (steps_range _ keepsPairing_refl keepsPairing_trans _ ms
                   (fun x _ => refreshMount_keepsPairing w x) q)]
  end.
Qed.

Lemma updateMounts_keepsPairing (w : World) :
  steps keepsPairing (updateMounts w).
Proof.
  apply (steps_range _ keepsPairing_refl keepsPairing_trans).
  intros d _. apply scanDriver_keepsPairing.
Qed.

(** One heartbeat at most is started for a mount, and only under the name
    of the mount. *)
Lemma startTasks_heartbeats (m : storage.Mount) (u : config.UseMount)
    (p : Proc) (V : string) :
  config.UseVolume u = storage.Name (storage.MountVolume m) ->
  (heartbeats (stateOf (startTasks m u p)) V
   <= heartbeats p V
      + (if String.eqb V (storage.Name (storage.MountVolume m)) then 1 else 0))%nat.
Proof.
  intros Hu. destruct (startTasks_cases m u p) as [[q E]|E]; rewrite E; simpl.
  - destruct (startTasks_Ok _ _ _ _ E) as (g & _ & _ & _ & H3 & _).
    rewrite (heartbeats_app p V _ q H3). simpl. rewrite Hu.
    rewrite (String.eqb_sym V).
    destruct (String.eqb (storage.Name (storage.MountVolume m)) V); simpl; lia.
  - unfold heartbeats. simpl. rewrite List.filter_app, length_app. simpl. lia.
Qed.

Lemma refreshMount_heartbeats (w : World) (m : storage.Mount) (p : Proc)
    (V : string) :
  (heartbeats (stateOf (refreshMount w m p)) V
   <= heartbeats p V
      + (if String.eqb V (storage.Name (storage.MountVolume m)) then 1 else 0))%nat.
Proof.
  unfold refreshMount.
  destruct (negb _); [simpl; unfold heartbeats; simpl; lia|].
  destruct (requestVolume w _ _) as [vol err].
  destruct err as [[| | |msg]|];
    try solve [simpl; unfold heartbeats; simpl; lia];
    (destruct vol as [vol|]; [|simpl; unfold heartbeats; simpl; lia]);
    (destruct (Client (dc _)) eqn:Ec; [|simpl; unfold heartbeats; simpl; lia]);
    (destruct (reportMount w _);
     [destruct (reportMountStatus w _)|]);
    try solve [simpl; unfold heartbeats; simpl; lia];
    match goal with
    | |- (heartbeats (stateOf (startTasks ?m ?u ?q)) _ <= _)%nat =>
        exact (startTasks_heartbeats m u q V eq_refl)
    end.
Qed.

(** Over a loop, the heartbeats started for a volume are bounded by the
    sum of what each turn may start, as long as the turns keep the
    condition [inv] under which the bound of a turn holds. *)
Lemma range_heartbeats {A : Type} (inv : Proc -> Prop) (body : A -> M unit)
    (cost : A -> nat) (V : string) (xs : list A) :
  (forall x p, inv p ->
     inv (stateOf (body x p))
     /\ (heartbeats (stateOf (body x p)) V <= heartbeats p V + cost x)%nat) ->
  forall p, inv p ->
    (heartbeats (stateOf (range body xs p)) V
     <= heartbeats p V + list_sum (map cost xs))%nat.
Proof.
  intros Hbody. induction xs as [|x rest IH]; intros p Hp; simpl; [lia|].
  unfold bind. destruct (Hbody x p Hp) as [Hinv Hle].
  destruct (body x p) as [[] q|e q|q|q|q]; simpl in *; try lia.
  specialize (IH q Hinv). lia.
Qed.

Lemma occurrences_sum (V : string) (ms : list storage.Mount) :
  list_sum (map (fun m => if String.eqb V (storage.Name (storage.MountVolume m))
                          then 1 else 0)%nat ms)
  = occurrences V (map (fun m => storage.Name (storage.MountVolume m)) ms).
Proof.
  unfold occurrences. induction ms as [|m ms IH]; simpl; [reflexivity|].
  destruct (String.eqb V (storage.Name (storage.MountVolume m))); simpl; lia.
Qed.

Lemma occurrences_app (V : string) (l1 l2 : list string) :
  occurrences V (l1 ++ l2) = (occurrences V l1 + occurrences V l2)%nat.
Proof. unfold occurrences. now rewrite List.filter_app, length_app. Qed.

Lemma occurrences_absent (V : string) (names : list string) :
  V ∉ names -> occurrences V names = O.
Proof.
  unfold occurrences. induction names as [|x l IH]; intros H; [reflexivity|].
  rewrite not_elem_of_cons in H. destruct H as [Hne H]. simpl.
  destruct (String.eqb_spec V x); [contradiction|auto].
Qed.

Lemma occurrences_NoDup (V : string) (names : list string) :
  NoDup names -> (occurrences V names <= 1)%nat.
Proof.
  induction 1 as [|x l Hx Hnd IH]; [unfold occurrences; simpl; lia|].
  change (x :: l) with ([x] ++ l)%list. rewrite occurrences_app.
  unfold occurrences at 1. simpl.
  destruct (String.eqb_spec V x) as [->|Hne]; simpl; [|lia].
  rewrite (occurrences_absent x l Hx). lia.
Qed.

Lemma scanDriver_heartbeats (w : World) (g : config.Global) (d : string)
    (p : Proc) (V : string) :
  Global (dc p) = Some g ->
  Global (dc (stateOf (scanDriver w d p))) = Some g
  /\ (heartbeats (stateOf (scanDriver w d p)) V
      <= heartbeats p V + occurrences V (namesOf w g d))%nat.
Proof.
  intros Hg. split.
  - destruct (scanDriver_reconciles w d p) as (_ & E & _). congruence.
  - unfold scanDriver, namesOf. rewrite Hg.
    destruct (newMountDriver w d _); [simpl; unfold heartbeats; simpl; lia|].
    destruct (Mounted w d _) as [ms|err]; [|simpl; unfold heartbeats; simpl; lia].
    rewrite <- occurrences_sum.
    match goal with
    | |- (heartbeats (stateOf (range _ _ ?q)) _ <= _)%nat =>
        exact (range_heartbeats (fun _ => True) (refreshMount w) _ V ms
                 (fun x p0 _ => conj I (refreshMount_heartbeats w x p0 V)) q I)
    end.
Qed.

Lemma occurrences_concat (V : string) (w : World) (g : config.Global)
    (ds : list string) :
  list_sum (map (fun d => occurrences V (namesOf w g d)) ds)
  = occurrences V (concat (map (namesOf w g) ds)).
Proof.
  induction ds as [|d ds IH]; simpl; [reflexivity|].
  now rewrite occurrences_app, IH.
Qed.

(** Reconciliation starts at most as many heartbeats for a volume as there
    are mounts with its name. *)
Lemma updateMounts_heartbeats (w : World) (g : config.Global) (p : Proc)
    (V : string) :
  Global (dc p) = Some g ->
  (heartbeats (stateOf (updateMounts w p)) V
   <= heartbeats p V + occurrences V (scannedNames w g))%nat.
Proof.
  intros Hg. unfold updateMounts, scannedNames.
  rewrite <- occurrences_concat.
  exact (range_heartbeats (fun q => Global (dc q) = Some g) (scanDriver w)
           (fun d => occurrences V (namesOf w g d)) V (MountDrivers w)
           (fun d q Hq => scanDriver_heartbeats w g d q V Hq) p Hg).
Qed.

(** A fresh daemon has no reference, no heartbeat and no stop channel. *)
Lemma readyProc_refcountInvariant (master host : string) (g : config.Global) :
  refcountInvariant (readyProc master host g).
Proof.
  intros V. unfold refcount, heartbeats, stopChanOf. simpl.
  rewrite !lookup_empty. simpl. tauto.
Qed.

Lemma readyProc_pairing (master host : string) (g : config.Global) :
  stopChanIffHeartbeat (readyProc master host g).
Proof.
  intros V. unfold heartbeats, stopChanOf. simpl.
  rewrite lookup_empty. split; [intros [x Hx]; discriminate|lia].
Qed.

(** C2, as the code has it.  Startup reconciliation keeps the pairing of
    stop channels and heartbeats: if before [updateMounts] a stop channel
    is registered for exactly the volumes that have a heartbeat, the same
    holds in the state it ends in, however it ends.  The reference count is
    not part of the pairing: [updateMounts] leaves every count as it was.
    On a daemon without heartbeats, when no two mounts of the scan carry
    the same volume name, no volume ends with more than one heartbeat. *)
Theorem updateMounts_pairs_stopChan_with_heartbeat (w : World) (p : Proc) :
  stopChanIffHeartbeat p ->
  stopChanIffHeartbeat (stateOf (updateMounts w p))
  /\ (forall V, refcount (dc (stateOf (updateMounts w p))) V = refcount (dc p) V)
  /\ (forall g,
        Global (dc p) = Some g ->
        (forall V, heartbeats p V = O) ->
        NoDup (scannedNames w g) ->
        forall V, (heartbeats (stateOf (updateMounts w p)) V <= 1)%nat).
Proof.
  intros Hinv. split; [exact (updateMounts_keepsPairing w p Hinv)|]. split.
  - intros V. destruct (updateMounts_reconciles w p) as (Hmc & _).
    unfold refcount. now rewrite Hmc.
  - intros g Hg Hfresh Hnd V.
    pose proof (updateMounts_heartbeats w g p V Hg) as H.
    pose proof (occurrences_NoDup V _ Hnd). rewrite Hfresh in H. lia.
Qed.

Lemma updateMounts_pairs_stopChan_with_heartbeat_witness :
  stopChanIffHeartbeat (stateOf (updateMounts mon0World mon0Ready))
  /\ (forall V, refcount (dc (stateOf (updateMounts mon0World mon0Ready))) V
                = refcount (dc mon0Ready) V)
  /\ (forall g,
        Global (dc mon0Ready) = Some g ->
        (forall V, heartbeats mon0Ready V = O) ->
        NoDup (scannedNames mon0World g) ->
        forall V, (heartbeats (stateOf (updateMounts mon0World mon0Ready)) V <= 1)%nat).
Proof.
  apply (updateMounts_pairs_stopChan_with_heartbeat mon0World mon0Ready).
  intros V. unfold heartbeats, stopChanOf. simpl.
  rewrite lookup_empty. split; [intros [x Hx]; discriminate|lia].
Defined.

(** C2, as the claim states it, fails: the invariant holds of the fresh
    daemon and is broken by reconciliation on the host of the system tests,
    where [policy1/test] ends with a heartbeat and a stop channel and with
    reference count 0. *)
Lemma updateMounts_breaks_refcountInvariant :
  refcountInvariant mon0Ready /\ ~ refcountInvariant mon0Reconciled.
Proof.
  split; [apply readyProc_refcountInvariant|].
  intros H. destruct (H "policy1/test") as [[H1 _] _].
  assert (E : heartbeats mon0Reconciled "policy1/test" = 1%nat)
    by (vm_compute; reflexivity).
  rewrite E in H1. discriminate H1. vm_compute. reflexivity.
Qed.

(** ** The answers of the master during reconciliation *)

Lemma refreshMount_not_found (w : World) (m : storage.Mount) (p : Proc) :
  length (Split (storage.Name (storage.MountVolume m)) "/") = 2%nat ->
  masterSays w m = Some errVolumeNotFound ->
  refreshMount w m p
  = Ok tt (emit (Log WarnLevel VolumeNotFoundSkipping) (askedMaster m p)).
Proof.
  unfold masterSays, refreshMount, askedMaster. intros Hlen Hsays.
  rewrite Hlen. simpl.
  destruct (requestVolume w _ _) as [vol err]. simpl in Hsays. now subst err.
Qed.

Lemma refreshMount_unreachable (w : World) (m : storage.Mount) (p : Proc) :
  length (Split (storage.Name (storage.MountVolume m)) "/") = 2%nat ->
  masterSays w m = Some errVolumeResponse ->
  refreshMount w m p
  = Exit (emit (Log FatalLevel VolmasterNotContacted) (askedMaster m p)).
Proof.
  unfold masterSays, refreshMount, askedMaster. intros Hlen Hsays.
  rewrite Hlen. simpl.
  destruct (requestVolume w _ _) as [vol err]. simpl in Hsays. now subst err.
Qed.

(** A reconciliation that returns normally has run the loop body to its
    end on every mount of every driver. *)
Lemma updateMounts_Ok_visits (w : World) (p p' : Proc) (g : config.Global)
    (d : string) (ms : list storage.Mount) (m : storage.Mount) :
  Global (dc p) = Some g ->
  updateMounts w p = Ok tt p' ->
  In d (MountDrivers w) ->
  Mounted w d (config.Timeout g) = inl ms ->
  In m ms ->
  exists q q', refreshMount w m q = Ok tt q'.
Proof.
  intros Hg Hrun Hd Hms Hm.
  destruct (range_Ok_inv reconciles _ _ reconciles_refl reconciles_trans
              (scanDriver_reconciles w) p p' Hrun d Hd)
    as (q1 & q2 & R1 & Hscan & R2).
  assert (Hg1 : Global (dc q1) = Some g)
    by (destruct R1 as (_ & E & _); congruence).
  unfold scanDriver in Hscan. rewrite Hg1 in Hscan.
  destruct (newMountDriver w d _); [discriminate|].
  rewrite Hms in Hscan.
  destruct (range_Ok_inv reconciles _ _ reconciles_refl reconciles_trans
              (refreshMount_reconciles w) _ _ Hscan m Hm)
    as (q3 & q4 & _ & Hbody & _).
  eauto.
Qed.

(** C3. For a surviving mount with a two-part name: when the master
    answers [errVolumeNotFound] the loop warns, skips the mount and goes on
    with the remaining mounts; when it answers [errVolumeResponse] (the
    master could not be contacted) [log.Fatalf] ends the process whatever
    mounts remain, and no run of [updateMounts] that meets such a mount
    returns normally. *)
Theorem updateMounts_skips_unknown_dies_unreachable
    (w : World) (m : storage.Mount) (rest : list storage.Mount) (p : Proc) :
  length (Split (storage.Name (storage.MountVolume m)) "/") = 2%nat ->
  match masterSays w m with
  | Some errVolumeNotFound =>
      refreshMount w m p
      = Ok tt (emit (Log WarnLevel VolumeNotFoundSkipping) (askedMaster m p))
      /\ range (refreshMount w) (m :: rest) p
         = range (refreshMount w) rest
             (emit (Log WarnLevel VolumeNotFoundSkipping) (askedMaster m p))
  | Some errVolumeResponse =>
      range (refreshMount w) (m :: rest) p
      = Exit (emit (Log FatalLevel VolmasterNotContacted) (askedMaster m p))
      /\ (forall p0 p' g d ms,
            Global (dc p0) = Some g ->
            In d (MountDrivers w) ->
            Mounted w d (config.Timeout g) = inl ms ->
            In m ms ->
            updateMounts w p0 <> Ok tt p')
  | _ => True
  end.
Proof.
  intros Hlen. destruct (masterSays w m) as [[| | |msg]|] eqn:Hsays; try exact I.
  - pose proof (refreshMount_not_found w m p Hlen Hsays) as E.
    split; [exact E|]. simpl. unfold bind. now rewrite E.
  - split.
    + simpl. unfold bind.
      now rewrite (refreshMount_unreachable w m p Hlen Hsays).
    + intros p0 p' g d ms Hg Hd Hms Hm Hrun.
      destruct (updateMounts_Ok_visits w p0 p' g d ms m Hg Hrun Hd Hms Hm)
        as (q & q' & Hbody).
      rewrite (refreshMount_unreachable w m q Hlen Hsays) in Hbody.
      discriminate.
Qed.

Lemma updateMounts_skips_unknown_dies_unreachable_witness :
  (refreshMount (masterAnswers (None, Some errVolumeNotFound) mon0World)
     (exampleMount "policy1/test") mon0Ready
   = Ok tt (emit (Log WarnLevel VolumeNotFoundSkipping)
              (askedMaster (exampleMount "policy1/test") mon0Ready))
   /\ range (refreshMount (masterAnswers (None, Some errVolumeNotFound) mon0World))
        [exampleMount "policy1/test"; exampleMount "policy1/other"] mon0Ready
      = range (refreshMount (masterAnswers (None, Some errVolumeNotFound) mon0World))
          [exampleMount "policy1/other"]
          (emit (Log WarnLevel VolumeNotFoundSkipping)
             (askedMaster (exampleMount "policy1/test") mon0Ready))).
Proof.
  apply (updateMounts_skips_unknown_dies_unreachable
           (masterAnswers (None, Some errVolumeNotFound) mon0World)
           (exampleMount "policy1/test") [exampleMount "policy1/other"]
           mon0Ready).
  vm_compute. reflexivity.
Defined.

(** ** Volume names in the mount scan *)

Lemma refreshMount_after_asking (w : World) (m : storage.Mount) (p : Proc) :
  length (Split (storage.Name (storage.MountVolume m)) "/") = 2%nat ->
  traceGrows (fun _ => True) (askedMaster m p) (stateOf (refreshMount w m p)).
Proof.
  intros Hlen. unfold refreshMount, askedMaster. rewrite Hlen. simpl.
  destruct (requestVolume w _ _) as [vol err].
  destruct err as [[| | |msg]|]; simpl; try solve [grow];
    (destruct vol as [vol|]; [|simpl; grow]);
    (destruct (Client (dc p)); [|simpl; grow]);
    (destruct (reportMount w _);
     [destruct (reportMountStatus w _); simpl|]);
    try solve [grow];
    (eapply traceGrows_trans; [|apply traceGrows_same; apply startTasks_trace]);
    grow.
Qed.

(** C7, as the code has it.  The mount scan accepts exactly the names with
    one ["/"]: such a name is [policy ++ "/" ++ name] with no ["/"] in
    either segment (an empty segment is accepted), and the master is asked
    about [(policy, name)] right after the refresh is logged.  Any other
    name is skipped with a warning and nothing else: no master call, no
    driver call, no goroutine. *)
Theorem updateMounts_accepts_names_with_one_slash
    (w : World) (m : storage.Mount) (p : Proc) :
  let name := storage.Name (storage.MountVolume m) in
  if Nat.eqb (countByte "/" name) 1 then
    exists policy vname es,
      name = policy ++ "/" ++ vname
      /\ countByte "/" policy = O /\ countByte "/" vname = O
      /\ trace (stateOf (refreshMount w m p))
         = (trace p ++ [Log InfoLevel (RefreshingMount name);
                        RequestVolume policy vname] ++ es)%list
  else
    refreshMount w m p = Ok tt (emit (Log WarnLevel (InvalidVolumeName name)) p).
Proof.
  intros name. pose proof (Split_length name "/") as Hlen.
  destruct (Nat.eqb_spec (countByte "/" name) 1) as [Hone|Hne].
  - rewrite Hone in Hlen.
    destruct (Split_two name "/" Hlen) as (a & b & Hsplit & Hname & Ha & Hb).
    destruct (refreshMount_after_asking w m p Hlen) as (es & Htr & _).
    exists a, b, es. repeat split; auto.
    rewrite Htr. unfold askedMaster. fold name. rewrite Hsplit. simpl.
    rewrite <- !app_assoc. reflexivity.
  - unfold refreshMount. fold name.
    destruct (Nat.eqb_spec (length (Split name "/")) 2) as [E|E]; [lia|].
    reflexivity.
Qed.

(** C7, as the claim states it, fails: the name ["/x"] has an empty policy
    segment, yet the mount scan accepts it, asks the master about
    [("", "x")] and starts a heartbeat for it. *)
Lemma updateMounts_accepts_empty_policy :
  specVolumeName "/x" = false
  /\ In (RequestVolume "" "x")
        (trace (stateOf (refreshMount mon0World (exampleMount "/x") mon0Ready)))
  /\ heartbeats (stateOf (refreshMount mon0World (exampleMount "/x") mon0Ready))
       "/x" = 1%nat.
Proof.
  split; [reflexivity|]. split; [|vm_compute; reflexivity].
  vm_compute. right. left. reflexivity.
Qed.

(** ** The global configuration *)

Lemma getGlobal_answer (w : World) (p : Proc) :
  match getGlobalAnswer w (fetches p) with
  | Decoded g => Global (dc (getGlobal w p)) = Some g
  | GetFailed | ReadFailed | DecodeFailed => dc (getGlobal w p) = dc p
  end.
Proof.
  unfold getGlobal. destruct (getGlobalAnswer w (fetches p)); reflexivity.
Qed.

Lemma getGlobal_keeps_config (w : World) (p : Proc) :
  is_Some (Global (dc p)) -> is_Some (Global (dc (getGlobal w p))).
Proof.
  intros H. pose proof (getGlobal_answer w p) as E.
  destruct (getGlobalAnswer w (fetches p)); try (rewrite E; exact H).
  rewrite E. eauto.
Qed.

Lemma watchGlobalTurn_keeps_config (w : World) (p : Proc) :
  is_Some (Global (dc p)) ->
  exists q, watchGlobalTurn w p = Ok tt q /\ is_Some (Global (dc q)).
Proof.
  intros H. unfold watchGlobalTurn.
  assert (H' : is_Some (Global (dc (getGlobal w (emit (Sleep Second) p)))))
    by (apply getGlobal_keeps_config; exact H).
  destruct (Global (dc (getGlobal w (emit (Sleep Second) p)))) as [g|] eqn:E.
  - destruct (config.Debug g); eexists; (split; [reflexivity|]);
      simpl; rewrite E; eauto.
  - destruct H' as [x Hx]. discriminate.
Qed.

Lemma watchGlobal_keeps_config (w : World) (turns : nat) (p : Proc) :
  is_Some (Global (dc p)) ->
  is_Some (Global (dc (stateOf (watchGlobal w turns p)))).
Proof.
  revert p. induction turns as [|n IH]; intros p H; simpl; [exact H|].
  unfold bind.
  destruct (watchGlobalTurn_keeps_config w p H) as (q & E & Hq).
  rewrite E. apply IH. exact Hq.
Qed.

(** C10. Whichever step of fetching the global configuration fails (the
    GET, reading the body, or decoding it), [getGlobal] leaves the whole
    [DaemonConfig], and so the stored configuration, exactly as it was; a
    decoded configuration is stored.  Hence a configuration that is there
    stays there through any number of turns of [watchGlobal]: it never
    reverts to nil. *)
Theorem getGlobal_failure_keeps_Global (w : World) (p : Proc) :
  match getGlobalAnswer w (fetches p) with
  | Decoded g => Global (dc (getGlobal w p)) = Some g
  | GetFailed | ReadFailed | DecodeFailed =>
      dc (getGlobal w p) = dc p /\ Global (dc (getGlobal w p)) = Global (dc p)
  end
  /\ (forall turns,
        is_Some (Global (dc p)) ->
        is_Some (Global (dc (stateOf (watchGlobal w turns p))))).
Proof.
  split.
  - pose proof (getGlobal_answer w p) as E.
    destruct (getGlobalAnswer w (fetches p)); try (split; [exact E|now rewrite E]).
    exact E.
  - intros turns. apply watchGlobal_keeps_config.
Qed.

(** ** Waiting for the master *)

Lemma getGlobal_failed (w : World) (p : Proc) :
  fetchFailed (getGlobalAnswer w (fetches p)) = true ->
  dc (getGlobal w p) = dc p
  /\ fetches (getGlobal w p) = S (fetches p)
  /\ goroutines (getGlobal w p) = goroutines p
  /\ trace (getGlobal w p)
     = (trace p ++ [HttpGet ("http://" ++ Master (dc p) ++ "/global");
                    Log ErrorLevel CouldNotRequestGlobal])%list.
Proof.
  unfold getGlobal.
  destruct (getGlobalAnswer w (fetches p)); simpl; try discriminate;
    intros _; rewrite <- app_assoc; auto.
Qed.

Lemma getGlobal_decoded (w : World) (p : Proc) (g : config.Global) :
  getGlobalAnswer w (fetches p) = Decoded g ->
  Global (dc (getGlobal w p)) = Some g
  /\ trace (getGlobal w p)
     = (trace p ++ [HttpGet ("http://" ++ Master (dc p) ++ "/global")])%list.
Proof. unfold getGlobal. intros ->. simpl. auto. Qed.

(** While every answer is a failure the loop keeps turning: after [n]
    turns it has logged the missing configuration [n] times, slept [n]
    seconds, and is still in the loop. *)
Lemma waitGlobal_spins (w : World) (n : nat) (p : Proc) :
  Global (dc p) = None ->
  (forall i, (i < n)%nat ->
     fetchFailed (getGlobalAnswer w (fetches p + i)) = true) ->
  exists q,
    waitGlobal w n p = Spinning q
    /\ trace q = (trace p ++ concat (replicate n (missingTurn (Master (dc p)))))%list
    /\ dc q = dc p
    /\ goroutines q = goroutines p
    /\ fetches q = (fetches p + n)%nat.
Proof.
  revert p. induction n as [|n IH]; intros p Hnil Hfail.
  - exists p. simpl. rewrite app_nil_r, Nat.add_0_r. auto.
  - assert (H0 : fetchFailed (getGlobalAnswer w (fetches p)) = true).
    { specialize (Hfail O). rewrite Nat.add_0_r in Hfail. apply Hfail. lia. }
    destruct (getGlobal_failed w p H0) as (Hdc & Hf & Hgo & Htr).
    cbn [waitGlobal]. rewrite Hdc, Hnil.
    set (p1 := emit (Sleep Second)
                 (emit (Log ErrorLevel (GlobalMissing (Master (dc p))))
                    (getGlobal w p))).
    destruct (IH p1) as (q & Hq & Htq & Hdq & Hgq & Hfq).
    + simpl. now rewrite Hdc.
    + intros i Hi. simpl. rewrite Hf.
      replace (S (fetches p) + i)%nat with (fetches p + S i)%nat by lia.
      apply Hfail. lia.
    + exists q. split; [exact Hq|]. simpl in Htq, Hdq, Hgq, Hfq.
      rewrite Htq, Htr, Hdq, Hdc, Hgq, Hgo, Hfq, Hf.
      repeat split; try lia.
      simpl. rewrite <- !app_assoc. reflexivity.
Qed.

(** When the first decoded answer is the one after [k] failures, any fuel
    above [k] lets the loop end, with the decoded configuration stored. *)
Lemma waitGlobal_ends (w : World) (k fuel : nat) (p : Proc) (g : config.Global) :
  Global (dc p) = None ->
  (forall i, (i < k)%nat ->
     fetchFailed (getGlobalAnswer w (fetches p + i)) = true) ->
  getGlobalAnswer w (fetches p + k) = Decoded g ->
  (k < fuel)%nat ->
  exists q,
    waitGlobal w fuel p = Ok tt q
    /\ Global (dc q) = Some g
    /\ trace q = (trace p ++ concat (replicate k (missingTurn (Master (dc p))))
                    ++ [HttpGet ("http://" ++ Master (dc p) ++ "/global")])%list.
Proof.
  revert fuel p. induction k as [|k IH]; intros fuel p Hnil Hfail Hg Hfuel;
    (destruct fuel as [|fuel]; [lia|]).
  - rewrite Nat.add_0_r in Hg.
    destruct (getGlobal_decoded w p g Hg) as (E & Htr).
    cbn [waitGlobal]. rewrite E. eexists. split; [reflexivity|].
    split; [exact E|]. rewrite Htr. reflexivity.
  - assert (H0 : fetchFailed (getGlobalAnswer w (fetches p)) = true).
    { specialize (Hfail O). rewrite Nat.add_0_r in Hfail. apply Hfail. lia. }
    destruct (getGlobal_failed w p H0) as (Hdc & Hf & Hgo & Htr).
    cbn [waitGlobal]. rewrite Hdc, Hnil.
    set (p1 := emit (Sleep Second)
                 (emit (Log ErrorLevel (GlobalMissing (Master (dc p))))
                    (getGlobal w p))).
    destruct (IH fuel p1) as (q & Hq & Hgq & Htq).
    + simpl. now rewrite Hdc.
    + intros i Hi. simpl. rewrite Hf.
      replace (S (fetches p) + i)%nat with (fetches p + S i)%nat by lia.
      apply Hfail. lia.
    + simpl. rewrite Hf.
      replace (S (fetches p) + k)%nat with (fetches p + S k)%nat by lia.
      exact Hg.
    + lia.
    + exists q. split; [exact Hq|]. split; [exact Hgq|].
      rewrite Htq. simpl. rewrite Htr, Hdc. simpl.
      rewrite <- !app_assoc. reflexivity.
Qed.

Lemma getGlobal_events (w : World) (p : Proc) :
  traceGrows beforeBind p (getGlobal w p).
Proof.
  unfold getGlobal.
  destruct (getGlobalAnswer w (fetches p));
    eexists; (split; [simpl; try rewrite <- app_assoc; reflexivity|]);
    repeat constructor.
Qed.

Lemma waitGlobal_events (w : World) (fuel : nat) :
  steps (traceGrows beforeBind) (waitGlobal w fuel).
Proof.
  induction fuel as [|n IH]; intros p; cbn [waitGlobal].
  - apply traceGrows_refl.
  - destruct (Global (dc (getGlobal w p))); simpl.
    + apply getGlobal_events.
    + eapply traceGrows_trans; [|apply IH].
      apply traceGrows_emit; [exact I|].
      apply traceGrows_emit; [exact I|].
      apply getGlobal_events.
Qed.

Lemma waitGlobal_Ok (w : World) (fuel : nat) (p q : Proc) :
  waitGlobal w fuel p = Ok tt q -> is_Some (Global (dc q)).
Proof.
  revert p. induction fuel as [|n IH]; intros p; cbn [waitGlobal];
    [discriminate|].
  destruct (Global (dc (getGlobal w p))) eqn:E.
  - intros [= <-]. rewrite E. eauto.
  - apply IH.
Qed.

(** ** The startup sequence of [Daemon] *)

Lemma osRemove_spec (w : World) (p : Proc) :
  trace (osRemove w p).2 = (trace p ++ [OsRemove driverPath])%list
  /\ dc (osRemove w p).2 = dc p
  /\ goroutines (osRemove w p).2 = goroutines p
  /\ ((osRemove w p).1 = None -> sockFile (osRemove w p).2 = false)
  /\ ((osRemove w p).1 = Some errNotExist -> osRemoveFails w = None ->
        sockFile (osRemove w p).2 = false).
Proof.
  unfold osRemove. destruct (osRemoveFails w); simpl.
  - repeat split; auto; discriminate.
  - destruct (sockFile p) eqn:E; simpl; repeat split; auto; discriminate.
Qed.

Lemma osMkdirAll_spec (w : World) (p : Proc) :
  trace (osMkdirAll w p).2 = (trace p ++ [MkdirAll basePath perm0700])%list
  /\ dc (osMkdirAll w p).2 = dc p
  /\ goroutines (osMkdirAll w p).2 = goroutines p
  /\ sockFile (osMkdirAll w p).2 = sockFile p.
Proof.
  unfold osMkdirAll. destruct (mkdirAllFails w); simpl; auto.
Qed.

Lemma netListenUnix_spec (w : World) (p : Proc) :
  trace (netListenUnix w p).2 = (trace p ++ [ListenUnix driverPath])%list
  /\ dc (netListenUnix w p).2 = dc p
  /\ goroutines (netListenUnix w p).2 = goroutines p
  /\ ((netListenUnix w p).1 = None ->
        sockFile p = false /\ sockFile (netListenUnix w p).2 = true).
Proof.
  unfold netListenUnix. destruct (listenUnixFails w); simpl.
  - repeat split; auto; discriminate.
  - destruct (sockFile p) eqn:E; simpl; repeat split; auto; discriminate.
Qed.

(** Binding the socket: either the three calls are made in their order
    (and if the router is built, the socket file exists and the daemon's
    configuration is untouched), or the function stopped before the call of
    [net.ListenUnix]. *)
Lemma bindSocket_cases (w : World) (p : Proc) :
  (traceGrows beforeBind p (stateOf (bindSocket w p))
   /\ forall r q, bindSocket w p <> Ok r q)
  \/ (trace (stateOf (bindSocket w p))
      = (trace p ++ [OsRemove driverPath; MkdirAll basePath perm0700;
                     ListenUnix driverPath])%list
      /\ forall r q, bindSocket w p = Ok r q ->
           sockFile q = true /\ dc q = dc p /\ goroutines q = goroutines p
           /\ configureRouter (dc p) = Some r).
Proof.
  unfold bindSocket, bind, orReturn.
  destruct (osRemove_spec w p) as (T1 & D1 & G1 & _).
  assert (Hstop1 : traceGrows beforeBind p (osRemove w p).2).
  { exists [OsRemove driverPath]. split; [exact T1|repeat constructor]. }
  destruct (osRemove w p) as [e1 p1]. simpl in *.
  assert (Hgo : (if e1 is Some e then negb (IsNotExist e) else false) = true
                \/ (if e1 is Some e then negb (IsNotExist e) else false) = false)
    by (destruct (if e1 is Some e then negb (IsNotExist e) else false); auto).
  destruct Hgo as [Hret|Hcont].
  { left. destruct e1 as [e|]; [|discriminate]. rewrite Hret. simpl.
    split; [exact Hstop1|intros; discriminate]. }
  assert (E1 : match e1 with
               | Some e => if negb (IsNotExist e) then Return e p1 else Ok tt p1
               | None => Ok tt p1
               end = (Ok tt p1 : result unit)).
  { destruct e1 as [e|]; [rewrite Hcont|]; reflexivity. }
  rewrite E1. clear E1 Hcont.
  destruct (osMkdirAll_spec w p1) as (T2 & D2 & G2 & _).
  assert (Hstop2 : traceGrows beforeBind p (osMkdirAll w p1).2).
  { exists [OsRemove driverPath; MkdirAll basePath perm0700].
    split; [rewrite T2, T1, <- app_assoc; reflexivity|repeat constructor]. }
  destruct (osMkdirAll w p1) as [[e2|] p2]; simpl in *.
  { left. split; [exact Hstop2|intros; discriminate]. }
  destruct (netListenUnix_spec w p2) as (T3 & D3 & G3 & S3).
  assert (Htr : trace (netListenUnix w p2).2
                = (trace p ++ [OsRemove driverPath; MkdirAll basePath perm0700;
                               ListenUnix driverPath])%list)
    by (rewrite T3, T2, T1, <- !app_assoc; reflexivity).
  destruct (netListenUnix w p2) as [[e3|] p3]; simpl in *.
  { right. split; [exact Htr|intros; discriminate]. }
  right. replace (dc p3) with (dc p) by congruence.
  destruct (configureRouter (dc p)) as [r|]; simpl.
  - split; [exact Htr|]. intros r' q' [= <- <-].
    destruct (S3 eq_refl) as [_ S]. repeat split; congruence.
  - split; [exact Htr|]. intros; discriminate.
Qed.

Lemma reconcileEvent_beforeBind (e : Event) : reconcileEvent e -> beforeBind e.
Proof. destruct e; simpl; auto. Qed.

(** [startDaemon] with its sequence of statements spelled out. *)
Lemma startDaemon_eq (w : World) (fuel : nat) (p : Proc) :
  startDaemon w fuel p
  = match waitGlobal w fuel (withClient p) with
    | Ok _ p1 =>
        match updateMounts w
                (emit (Log InfoLevel (ReachedVolmaster (Master (dc p1)))) p1) with
        | Ok _ p2 => bindSocket w (go watchGlobalTask (go HandleDebugSignal p2))
        | Return e q => Return e q
        | Exit q => Exit q
        | Panic q => Panic q
        | Spinning q => Spinning q
        end
    | Return e q => Return e q
    | Exit q => Exit q
    | Panic q => Panic q
    | Spinning q => Spinning q
    end.
Proof.
  unfold startDaemon, bind, step.
  destruct (waitGlobal w fuel (withClient p)) as [[] p1| | | |]; reflexivity.
Qed.

(** [Daemon] up to [srv.Serve]: either it stopped before any call of
    [net.ListenUnix], or the wait for the master ended, [updateMounts]
    returned nil, and only then the socket path was removed, the directory
    made and the socket bound. *)
Lemma startDaemon_cases (w : World) (fuel : nat) (p : Proc) :
  (traceGrows beforeBind p (stateOf (startDaemon w fuel p))
   /\ forall r q, startDaemon w fuel p <> Ok r q)
  \/ exists p1 p2,
       waitGlobal w fuel (withClient p) = Ok tt p1
       /\ updateMounts w (emit (Log InfoLevel (ReachedVolmaster (Master (dc p1)))) p1)
          = Ok tt p2
       /\ traceGrows beforeBind p p2
       /\ trace (stateOf (startDaemon w fuel p))
          = (trace p2 ++ [OsRemove driverPath; MkdirAll basePath perm0700;
                          ListenUnix driverPath])%list
       /\ forall r q, startDaemon w fuel p = Ok r q ->
            sockFile q = true /\ dc q = dc p2 /\ configureRouter (dc p2) = Some r
            /\ goroutines q
               = (goroutines p2 ++ [HandleDebugSignal; watchGlobalTask])%list.
Proof.
  rewrite startDaemon_eq.
  pose proof (waitGlobal_events w fuel (withClient p)) as Hw.
  change (traceGrows beforeBind p (stateOf (waitGlobal w fuel (withClient p))))
    in Hw.
  destruct (waitGlobal w fuel (withClient p)) as [[] p1|e p1|p1|p1|p1] eqn:Ew;
    simpl in Hw; try (left; split; [exact Hw|intros; discriminate]).
  set (p1' := emit (Log InfoLevel (ReachedVolmaster (Master (dc p1)))) p1).
  assert (Hw' : traceGrows beforeBind p p1')
    by (apply traceGrows_emit; [exact I|exact Hw]).
  pose proof (updateMounts_events w p1') as Hu.
  apply (traceGrows_weaken _ _ _ _ reconcileEvent_beforeBind) in Hu.
  pose proof (traceGrows_trans _ _ _ _ Hw' Hu) as Hp2.
  destruct (updateMounts w p1') as [[] p2|e p2|p2|p2|p2] eqn:Eu;
    simpl in Hp2; try (left; split; [exact Hp2|intros; discriminate]).
  set (p3 := go watchGlobalTask (go HandleDebugSignal p2)).
  destruct (bindSocket_cases w p3) as [[Hb Hno]|[Hb Hok]].
  - left. split; [|exact Hno].
    eapply traceGrows_trans; [exact Hp2|exact Hb].
  - right. exists p1, p2. split; [reflexivity|]. split; [exact Eu|].
    split; [exact Hp2|]. split; [exact Hb|].
    intros r q H. destruct (Hok r q H) as (A & B & C & D).
    repeat split; auto. rewrite C. simpl. now rewrite <- app_assoc.
Qed.

Lemma serveDaemon_trace (w : World) (r : Router) (p : Proc) :
  exists post,
    trace (stateOf (serveDaemon w r p)) = (trace p ++ Serve r :: post)%list.
Proof.
  unfold serveDaemon, orReturn. destruct (serveReturns w) as [e|]; simpl.
  - eexists. rewrite <- app_assoc. reflexivity.
  - match goal with
    | |- context [osRemove w ?q] =>
        destruct (osRemove_spec w q) as (T & _);
        destruct (osRemove w q) as [[e|] q']
    end; simpl in *; rewrite T;
      destruct (closeUnlinks w); simpl; eexists;
      rewrite <- !app_assoc; reflexivity.
Qed.

Lemma Daemon_cases (w : World) (fuel : nat) (p : Proc) :
  traceGrows beforeBind p (stateOf (Daemon w fuel p))
  \/ exists p1 p2 post,
       waitGlobal w fuel (withClient p) = Ok tt p1
       /\ updateMounts w (emit (Log InfoLevel (ReachedVolmaster (Master (dc p1)))) p1)
          = Ok tt p2
       /\ traceGrows beforeBind p p2
       /\ trace (stateOf (Daemon w fuel p))
          = (trace p2 ++ [OsRemove driverPath; MkdirAll basePath perm0700;
                          ListenUnix driverPath] ++ post)%list.
Proof.
  unfold Daemon, bind.
  destruct (startDaemon_cases w fuel p) as [[Hs Hno]|(p1 & p2 & A & B & C & D & _)].
  - left. destruct (startDaemon w fuel p) as [r q| | | |]; try exact Hs.
    exfalso. eapply Hno. reflexivity.
  - right. exists p1, p2.
    destruct (startDaemon w fuel p) as [r q|e q|q|q|q]; simpl in D;
      try solve [exists []; rewrite app_nil_r; auto].
    destruct (serveDaemon_trace w r q) as (post & E).
    exists (Serve r :: post). rewrite E, D, <- app_assoc. auto.
Qed.

(** C4. [Daemon] started on a fresh [DaemonConfig]:
    - while every request for the global configuration fails it stays in
      its first loop, and each turn logs "Global configuration is missing"
      once and sleeps one second, nothing else besides the request;
    - when the first configuration arrives after [k] failures, any fuel
      above [k] ends the loop after exactly [k] such turns, with the
      configuration stored;
    - if [net.ListenUnix] is called at all, then the loop has ended with a
      non-nil configuration, [updateMounts] has run after it and returned
      nil, and everything up to the end of [updateMounts] came before the
      removal of the socket path, the creation of the directory and the
      call of [net.ListenUnix], none of it touching the socket. *)
Theorem Daemon_binds_after_config_and_reconcile
    (w : World) (fuel : nat) (master host : string) (sock : bool) (dir : option Z) :
  (forall n,
     (forall i, (i < n)%nat -> fetchFailed (getGlobalAnswer w i) = true) ->
     exists q,
       Daemon w n (bootProc master host sock dir) = Spinning q
       /\ trace q = concat (replicate n (missingTurn master)))
  /\ (forall k g,
        (forall i, (i < k)%nat -> fetchFailed (getGlobalAnswer w i) = true) ->
        getGlobalAnswer w k = Decoded g ->
        (k < fuel)%nat ->
        exists p1,
          waitGlobal w fuel (withClient (bootProc master host sock dir)) = Ok tt p1
          /\ Global (dc p1) = Some g
          /\ trace p1 = (concat (replicate k (missingTurn master))
                           ++ [HttpGet ("http://" ++ master ++ "/global")])%list)
  /\ (In (ListenUnix driverPath)
         (trace (stateOf (Daemon w fuel (bootProc master host sock dir)))) ->
      exists p1 p2 post,
        waitGlobal w fuel (withClient (bootProc master host sock dir)) = Ok tt p1
        /\ is_Some (Global (dc p1))
        /\ updateMounts w
             (emit (Log InfoLevel (ReachedVolmaster (Master (dc p1)))) p1)
           = Ok tt p2
        /\ Forall beforeBind (trace p2)
        /\ trace (stateOf (Daemon w fuel (bootProc master host sock dir)))
           = (trace p2 ++ [OsRemove driverPath; MkdirAll basePath perm0700;
                           ListenUnix driverPath] ++ post)%list).
Proof.
  set (boot := bootProc master host sock dir).
  split; [|split].
  - intros n Hfail.
    destruct (waitGlobal_spins w n (withClient boot) eq_refl Hfail)
      as (q & Hq & Htr & _).
    exists q. split; [|exact Htr].
    unfold Daemon, bind. rewrite startDaemon_eq, Hq. reflexivity.
  - intros k g Hfail Hg Hk.
    destruct (waitGlobal_ends w k fuel (withClient boot) g eq_refl Hfail Hg Hk)
      as (q & Hq & Hgq & Htr).
    exists q. auto.
  - intros Hin.
    destruct (Daemon_cases w fuel boot) as [(es & E & F)|(p1 & p2 & post & A & B & C & D)].
    + exfalso. rewrite E in Hin. simpl in Hin.
      rewrite Forall_forall in F.
      apply list_elem_of_In in Hin. exact (F _ Hin).
    + exists p1, p2, post. split; [exact A|].
      split; [exact (waitGlobal_Ok _ _ _ _ A)|]. split; [exact B|].
      split; [|exact D].
      destruct C as (es & E & F). rewrite E. exact F.
Qed.

Lemma Daemon_binds_after_config_and_reconcile_witness :
  exists p1 p2 post,
    waitGlobal mon0MasterDown 2 (withClient mon0Boot) = Ok tt p1
    /\ is_Some (Global (dc p1))
    /\ updateMounts mon0MasterDown
         (emit (Log InfoLevel (ReachedVolmaster (Master (dc p1)))) p1)
       = Ok tt p2
    /\ Forall beforeBind (trace p2)
    /\ trace (stateOf (Daemon mon0MasterDown 2 mon0Boot))
       = (trace p2 ++ [OsRemove driverPath; MkdirAll basePath perm0700;
                       ListenUnix driverPath] ++ post)%list.
Proof.
  apply (Daemon_binds_after_config_and_reconcile mon0MasterDown 2
           "volmaster:9005" "mon0" true (Some perm0700)).
  vm_compute. do 13 right. left. reflexivity.
Defined.

(** ** The router *)

Lemma find_app_first {A : Type} (f : A -> bool) (l1 l2 : list A) :
  List.find f (l1 ++ l2)
  = match List.find f l1 with
    | Some x => Some x
    | None => List.find f l2
    end.
Proof.
  induction l1 as [|x l1 IH]; simpl; [reflexivity|].
  destruct (f x); [reflexivity|exact IH].
Qed.

Lemma find_map_key {A B : Type} (g : A -> B) (f : B -> bool) (l : list A) :
  List.find f (map g l) = g <$> List.find (fun x => f (g x)) l.
Proof.
  induction l as [|x l IH]; simpl; [reflexivity|].
  destruct (f (g x)); [reflexivity|exact IH].
Qed.

(** In a list of pairs with distinct keys, looking a key up finds the one
    pair with that key. *)
Lemma find_key_Some {A : Type} (l : list (string * A)) (path : string)
    (kv : string * A) :
  NoDup l.*1 ->
  kv ∈ l -> kv.1 = path ->
  List.find (fun kv => String.eqb kv.1 path) l = Some kv.
Proof.
  induction l as [|x l IH]; intros Hnd Hin Hk; [inversion Hin|].
  simpl in *. apply NoDup_cons in Hnd as [Hx Hnd].
  apply elem_of_cons in Hin as [->|Hin].
  - rewrite Hk, String.eqb_refl. reflexivity.
  - destruct (String.eqb_spec x.1 path) as [E|E]; [|auto].
    exfalso. apply Hx. rewrite E, <- Hk.
    apply list_elem_of_fmap. exists kv. auto.
Qed.

Lemma find_key_None {A : Type} (l : list (string * A)) (path : string) :
  path ∉ l.*1 ->
  List.find (fun kv => String.eqb kv.1 path) l = None.
Proof.
  induction l as [|x l IH]; intros Hnot; [reflexivity|].
  simpl in *. rewrite not_elem_of_cons in Hnot. destruct Hnot as [Hne Hnot].
  destruct (String.eqb_spec x.1 path) as [E|E]; [congruence|auto].
Qed.

Lemma find_key_inv {A : Type} (l : list (string * A)) (path : string)
    (kv : string * A) :
  List.find (fun kv => String.eqb kv.1 path) l = Some kv ->
  kv ∈ l /\ kv.1 = path.
Proof.
  intros H. apply List.find_some in H as [Hin Hk].
  split; [now apply list_elem_of_In|now apply String.eqb_eq].
Qed.

(** The order in which the map is visited does not change what a key
    finds. *)
Lemma find_key_Permutation {A : Type} (l l' : list (string * A)) (path : string) :
  NoDup l.*1 -> l' ≡ₚ l ->
  List.find (fun kv => String.eqb kv.1 path) l'
  = List.find (fun kv => String.eqb kv.1 path) l.
Proof.
  intros Hnd Hperm.
  assert (Hnd' : NoDup l'.*1) by (now rewrite Hperm).
  destruct (List.find (fun kv => String.eqb kv.1 path) l) as [kv|] eqn:E.
  - apply find_key_inv in E as [Hin Hk].
    apply find_key_Some; auto. now rewrite Hperm.
  - apply find_key_None. intros Hin.
    rewrite Hperm in Hin. apply list_elem_of_fmap in Hin as (kv & Hk & Hin).
    rewrite (find_key_Some l path kv Hnd Hin (eq_sym Hk)) in E. discriminate.
Qed.

Lemma routeMap_keys_NoDup : NoDup routeMap.*1.
Proof. compute_done. Qed.

Lemma routeMap_keys_dotted :
  Forall (fun kv : string * Action => SplitN kv.1 "." 2 !! 1%nat = Some (verbOf kv.1))
    routeMap.
Proof. repeat constructor. Qed.

Lemma mapM_installRoute (debug : bool) (order : list (string * Action)) :
  Forall (fun kv : string * Action => SplitN kv.1 "." 2 !! 1%nat = Some (verbOf kv.1))
    order ->
  mapM (installRoute debug) order
  = Some (map (fun kv => (Literal kv.1, logHandler (verbOf kv.1) debug kv.2)) order).
Proof.
  induction 1 as [|kv order Hkv _ IH]; [reflexivity|].
  cbn [mapM]. rewrite IH. unfold installRoute. rewrite Hkv. reflexivity.
Qed.

Lemma find_ext_Forall {A : Type} (f g : A -> bool) (l : list A) :
  Forall (fun x => f x = g x) l -> List.find f l = List.find g l.
Proof.
  induction 1 as [|x l Hx _ IH]; simpl; [reflexivity|].
  rewrite Hx. destruct (g x); [reflexivity|exact IH].
Qed.

Lemma routeMap_keys_slashed :
  Forall (fun kv : string * Action => leadingSlash kv.1 = true) routeMap.
Proof. repeat constructor. Qed.

(** [configureRouter] never panics once the global configuration is there,
    and in whatever order the [range] visits [routeMap] the router it
    builds sends each request where [dispatch] says, with the debug flag of
    that moment. *)
Lemma configureRouterIn_dispatch (order : list (string * Action))
    (d : DaemonConfig) (g : config.Global) :
  order ≡ₚ routeMap ->
  Global d = Some g ->
  exists r,
    configureRouterIn order d = Some r
    /\ forall method path,
         ServeHTTP r method path = dispatch (config.Debug g) method path.
Proof.
  intros Hperm Hg. unfold configureRouterIn. rewrite Hg. simpl.
  assert (Hdots : Forall (fun kv : string * Action =>
                            SplitN kv.1 "." 2 !! 1%nat = Some (verbOf kv.1)) order).
  { rewrite Hperm. exact routeMap_keys_dotted. }
  assert (Hslash : Forall (fun kv : string * Action => leadingSlash kv.1 = true)
                     order).
  { rewrite Hperm. exact routeMap_keys_slashed. }
  rewrite (mapM_installRoute _ _ Hdots). simpl.
  eexists. split; [reflexivity|].
  intros method path. unfold ServeHTTP, dispatch, registered.
  cbn [methods routes existsb]. rewrite orb_false_r.
  destruct (String.eqb method "POST"); [|reflexivity].
  rewrite find_app_first, find_map_key.
  rewrite (find_ext_Forall _ (fun kv => String.eqb kv.1 path) order).
  2:{ eapply Forall_impl; [exact Hslash|]. intros kv Hkv.
      unfold matchTemplate. cbn [fst templateText]. now rewrite Hkv. }
  rewrite (find_key_Permutation routeMap order path routeMap_keys_NoDup Hperm).
  destruct (List.find (fun kv => String.eqb kv.1 path) routeMap) as [kv|] eqn:E.
  - apply find_key_inv in E as [_ Hk]. simpl. now rewrite Hk.
  - simpl. destruct (config.Debug g); reflexivity.
Qed.

Lemma registered_not_action (path : string) (a : Action) :
  registered path = Some a -> a <> dc_action.
Proof.
  unfold registered. intros H.
  destruct (List.find (fun kv => String.eqb kv.1 path) routeMap) as [kv|] eqn:E;
    [|discriminate].
  injection H as <-. apply List.find_some in E as [Hin _].
  unfold routeMap in Hin. simpl in Hin.
  repeat (destruct Hin as [<-|Hin]; [discriminate|]). destruct Hin.
Qed.

Lemma registered_None (path : string) :
  registered path = None <-> path ∉ routeMap.*1.
Proof.
  unfold registered. split.
  - intros H Hin. apply list_elem_of_fmap in Hin as (kv & Hk & Hin).
    rewrite (find_key_Some routeMap path kv routeMap_keys_NoDup Hin (eq_sym Hk))
      in H. discriminate.
  - intros H. now rewrite (find_key_None routeMap path H).
Qed.

(** No request is sent to the diagnostic handler, and a path that is none
    of the nine registered ones is sent nowhere. *)
Lemma dispatch_never_action (debug : bool) (method path : string) :
  actionOf <$> dispatch debug method path <> Some dc_action
  /\ (path ∉ routeMap.*1 -> dispatch debug method path = None).
Proof.
  unfold dispatch. split.
  - destruct (String.eqb method "POST"); [|discriminate].
    destruct (registered path) as [a|] eqn:E; [|discriminate].
    simpl. intros [= ->]. now destruct (registered_not_action _ _ E).
  - intros H. apply registered_None in H. rewrite H.
    destruct (String.eqb method "POST"); reflexivity.
Qed.

(** C5. Whenever the global debug flag is off, a request with an unknown
    verb is never routed to the diagnostic handler, and the handler is
    reachable only when debug is enabled.  This holds of every router
    [configureRouter] builds, in whatever order [routeMap] is visited and
    whatever the flag was when the router was built, and for whatever the
    flag is now ([debugNow]; [watchGlobal] may have changed it since):
    with debug on at configuration the catch-all route is registered, but
    its template ["{action:.*}"] does not start with a slash, so it takes
    no request, and a path that is none of the nine registered routes
    reaches no handler at all. *)
Theorem diagnostic_handler_unreachable_with_debug_off
    (order : list (string * Action)) (d : DaemonConfig) (g : config.Global)
    (r : Router) (debugNow : bool) (method path : string) :
  order ≡ₚ routeMap ->
  Global d = Some g ->
  configureRouterIn order d = Some r ->
  (debugNow = false ->
   path ∉ routeMap.*1 ->
   actionOf <$> ServeHTTP r method path <> Some dc_action)
  /\ (actionOf <$> ServeHTTP r method path = Some dc_action -> debugNow = true)
  /\ (path ∉ routeMap.*1 -> ServeHTTP r method path = None).
Proof.
  intros Hperm Hg Hr.
  destruct (configureRouterIn_dispatch order d g Hperm Hg) as (r' & Hr' & Hd).
  assert (r' = r) as -> by congruence.
  destruct (dispatch_never_action (config.Debug g) method path) as [Hnever Hnone].
  rewrite Hd. split; [|split].
  - intros _ _. exact Hnever.
  - intros H. destruct (Hnever H).
  - exact Hnone.
Qed.

Lemma diagnostic_handler_unreachable_with_debug_off_witness :
  (config.Debug exampleGlobal = false ->
   "/VolumeDriver.Destroy" ∉ routeMap.*1 ->
   actionOf <$> ServeHTTP debugRouter "POST" "/VolumeDriver.Destroy"
   <> Some dc_action)
  /\ (actionOf <$> ServeHTTP debugRouter "POST" "/VolumeDriver.Destroy"
      = Some dc_action ->
      config.Debug exampleGlobal = true)
  /\ ("/VolumeDriver.Destroy" ∉ routeMap.*1 ->
      ServeHTTP debugRouter "POST" "/VolumeDriver.Destroy" = None).
Proof.
  apply (diagnostic_handler_unreachable_with_debug_off routeMap
           (setGlobal (Some debugGlobal) (dc mon0Ready)) debugGlobal
           debugRouter (config.Debug exampleGlobal) "POST"
           "/VolumeDriver.Destroy").
  - reflexivity.
  - reflexivity.
  - reflexivity.
Defined.

(** C6. In whatever order [routeMap] is visited, the router sends
    [/VolumeDriver.Remove] to [getPath], the handler of
    [/VolumeDriver.Path]; by the spec [getPath] only asks the driver for
    the mount path, and no handler the router can reach calls the driver's
    [Destroy]. *)
Theorem Remove_routes_to_getPath_never_Destroy
    (order : list (string * Action)) (d : DaemonConfig) (g : config.Global) :
  order ≡ₚ routeMap ->
  Global d = Some g ->
  exists r,
    configureRouterIn order d = Some r
    /\ ServeHTTP r "POST" "/VolumeDriver.Remove"
       = Some (logHandler "Remove" (config.Debug g) dc_getPath)
    /\ ServeHTTP r "POST" "/VolumeDriver.Path"
       = Some (logHandler "Path" (config.Debug g) dc_getPath)
    /\ driverOps dc_getPath = [storage.MountDriver storage.OpMountPath]
    /\ (forall method path h,
          ServeHTTP r method path = Some h ->
          ~ In (storage.CRUDDriver storage.OpDestroy) (driverOps (actionOf h))).
Proof.
  intros Hperm Hg.
  destruct (configureRouterIn_dispatch order d g Hperm Hg) as (r & Hr & Hd).
  exists r. split; [exact Hr|].
  split; [rewrite Hd; reflexivity|].
  split; [rewrite Hd; reflexivity|].
  split; [reflexivity|].
  intros method path h _ Hin.
  destruct (actionOf h); simpl in Hin;
    repeat (destruct Hin as [Hin|Hin]; [discriminate|]); exact Hin.
Qed.

Lemma Remove_routes_to_getPath_never_Destroy_witness :
  exists r,
    configureRouterIn routeMap (dc mon0Ready) = Some r
    /\ ServeHTTP r "POST" "/VolumeDriver.Remove"
       = Some (logHandler "Remove" (config.Debug exampleGlobal) dc_getPath)
    /\ ServeHTTP r "POST" "/VolumeDriver.Path"
       = Some (logHandler "Path" (config.Debug exampleGlobal) dc_getPath)
    /\ driverOps dc_getPath = [storage.MountDriver storage.OpMountPath]
    /\ (forall method path h,
          ServeHTTP r method path = Some h ->
          ~ In (storage.CRUDDriver storage.OpDestroy) (driverOps (actionOf h))).
Proof.
  apply (Remove_routes_to_getPath_never_Destroy routeMap
           (dc mon0Ready) exampleGlobal).
  - reflexivity.
  - reflexivity.
Defined.

(** ** The socket file *)

(** At startup the socket path is removed and the directory made with mode
    [0700] before the socket is bound: when [Daemon] reaches [srv.Serve],
    these three calls are the last three of the trace, in this order, and
    the socket file bound is there. *)
Lemma startDaemon_prepares_socket (w : World) (fuel : nat) (p : Proc)
    (r : Router) (q : Proc) :
  startDaemon w fuel p = Ok r q ->
  sockFile q = true
  /\ exists pre,
       trace q = (pre ++ [OsRemove driverPath; MkdirAll basePath perm0700;
                          ListenUnix driverPath])%list.
Proof.
  intros H.
  destruct (startDaemon_cases w fuel p) as [[_ Hno]|(p1 & p2 & _ & _ & _ & D & E)].
  - destruct (Hno r q H).
  - destruct (E r q H) as (S & _). split; [exact S|].
    rewrite H in D. simpl in D. eauto.
Qed.

(** When [srv.Serve] returns nil, the listener is closed and the socket
    path removed; unless that last removal fails for a reason of the file
    system, no socket file is left. *)
Lemma serveDaemon_nil_cleans (w : World) (r : Router) (p : Proc) :
  serveReturns w = None ->
  osRemoveFails w = None ->
  sockFile (stateOf (serveDaemon w r p)) = false
  /\ exists post,
       trace (stateOf (serveDaemon w r p))
       = (trace p ++ [Serve r; CloseListener; OsRemove driverPath] ++ post)%list.
Proof.
  intros Hs Hr. unfold serveDaemon, orReturn, osRemove. rewrite Hs, Hr.
  destruct p as [d gs tr nc f dl sf pd].
  destruct (closeUnlinks w); simpl;
    [|destruct sf; simpl];
    (split; [reflexivity|exists []; rewrite <- !app_assoc; reflexivity]).
Qed.

(** When [srv.Serve] returns an error, [log.Fatalf] ends the process at
    once: the listener is not closed, the socket path is not removed, and
    the file system is as it was when [srv.Serve] was called. *)
Lemma serveDaemon_error_exits (w : World) (r : Router) (p : Proc) (e : error) :
  serveReturns w = Some e ->
  serveDaemon w r p
  = Exit (emit (Log FatalLevel (FatalServing e)) (emit (Serve r) p)).
Proof. intros Hs. unfold serveDaemon. rewrite Hs. reflexivity. Qed.

Lemma Daemon_serve_error_leaves_socket (w : World) (fuel : nat) (p : Proc)
    (r : Router) (q : Proc) (e : error) :
  startDaemon w fuel p = Ok r q ->
  serveReturns w = Some e ->
  exists q',
    Daemon w fuel p = Exit q'
    /\ sockFile q' = true
    /\ trace q' = (trace q ++ [Serve r; Log FatalLevel (FatalServing e)])%list.
Proof.
  intros Hstart Hs.
  destruct (startDaemon_prepares_socket w fuel p r q Hstart) as (Hsock & _).
  unfold Daemon, bind. rewrite Hstart, (serveDaemon_error_exits w r q e Hs).
  eexists. split; [reflexivity|]. split; [exact Hsock|].
  simpl. rewrite <- app_assoc. reflexivity.
Qed.


(** * More of the agent *)

(** ** [configureRouter] *)

(** X1. The order in which the [range] of [configureRouter] visits
    [routeMap] is of no consequence: with a global configuration in place
    the function does not panic in any order, and the routers built in two
    orders send every request to the same handler. *)
Theorem configureRouter_order_irrelevant
    (order1 order2 : list (string * Action)) (d : DaemonConfig)
    (g : config.Global) :
  order1 ≡ₚ routeMap ->
  order2 ≡ₚ routeMap ->
  Global d = Some g ->
  exists r1 r2,
    configureRouterIn order1 d = Some r1
    /\ configureRouterIn order2 d = Some r2
    /\ forall method path, ServeHTTP r1 method path = ServeHTTP r2 method path.
Proof.
  intros H1 H2 Hg.
  destruct (configureRouterIn_dispatch order1 d g H1 Hg) as (r1 & E1 & D1).
  destruct (configureRouterIn_dispatch order2 d g H2 Hg) as (r2 & E2 & D2).
  exists r1, r2. split; [exact E1|]. split; [exact E2|].
  intros method path. now rewrite D1, D2.
Qed.

Lemma configureRouter_order_irrelevant_witness :
  exists r1 r2,
    configureRouterIn routeMap (dc mon0Ready) = Some r1
    /\ configureRouterIn (reverse routeMap) (dc mon0Ready) = Some r2
    /\ forall method path, ServeHTTP r1 method path = ServeHTTP r2 method path.
Proof.
  apply (configureRouter_order_irrelevant routeMap (reverse routeMap)
           (dc mon0Ready) exampleGlobal).
  - reflexivity.
  - apply reverse_Permutation.
  - reflexivity.
Defined.

(** X2. Only POST requests are routed: the routes, the catch-all of debug
    mode included, hang on the subrouter [router.Methods("POST")], so
    whatever the order of registration and the debug flag, a request with
    another method reaches no handler. *)
Theorem configureRouter_routes_only_POST
    (order : list (string * Action)) (d : DaemonConfig) (r : Router)
    (method path : string) :
  configureRouterIn order d = Some r ->
  method <> "POST" ->
  ServeHTTP r method path = None.
Proof.
  unfold configureRouterIn. intros Hr Hm.
  destruct (Global d) as [g|]; [|discriminate]. simpl in Hr.
  destruct (mapM (installRoute (config.Debug g)) order) as [rs|];
    [|discriminate].
  injection Hr as <-. unfold ServeHTTP. simpl.
  destruct (String.eqb_spec method "POST"); [contradiction|reflexivity].
Qed.

Lemma configureRouter_routes_only_POST_witness :
  ServeHTTP plainRouter "GET" "/VolumeDriver.Mount" = None.
Proof.
  apply (configureRouter_routes_only_POST routeMap (dc mon0Ready)
           plainRouter "GET" "/VolumeDriver.Mount").
  - reflexivity.
  - discriminate.
Defined.

(** One cut: the first piece holds no separator, and the string is the
    first piece, the separator and the remainder. *)
Lemma genSplit_one (s : string) (sep : ascii) :
  match genSplit s sep 1 with
  | [a] => s = a /\ countByte sep a = O
  | [a; b] => s = a ++ String sep b /\ countByte sep a = O
  | _ => False
  end.
Proof.
  induction s as [|c r IH]; simpl; [auto|].
  destruct (Ascii.eqb c sep) eqn:Ec.
  - apply Ascii.eqb_eq in Ec as ->. destruct r; simpl; auto.
  - destruct (genSplit r sep 1) as [|a [|b [|x t]]]; try contradiction;
      destruct IH as [-> Ha]; simpl; rewrite Ec; auto.
Qed.

(** X3. Every path of [routeMap] reaches its own handler, wrapped by
    [logHandler] under the part of the path after its first dot, in any
    order of registration and also with debug on: the catch-all route is
    registered last and never takes a registered verb. *)
Theorem configureRouter_registered_verbs
    (order : list (string * Action)) (d : DaemonConfig) (g : config.Global)
    (key : string) (value : Action) :
  order ≡ₚ routeMap ->
  Global d = Some g ->
  (key, value) ∈ routeMap ->
  exists r namespace verb,
    configureRouterIn order d = Some r
    /\ key = namespace ++ "." ++ verb
    /\ countByte "." namespace = O
    /\ ServeHTTP r "POST" key = Some (logHandler verb (config.Debug g) value).
Proof.
  intros Hperm Hg Hin.
  destruct (configureRouterIn_dispatch order d g Hperm Hg) as (r & Hr & Hd).
  pose proof routeMap_keys_dotted as Hdots. rewrite Forall_forall in Hdots.
  specialize (Hdots _ Hin). simpl in Hdots.
  pose proof (genSplit_one key ".") as Hone.
  change (genSplit key "." 1) with (SplitN key "." 2) in Hone.
  destruct (SplitN key "." 2) as [|a [|b [|x t]]]; try discriminate;
    try contradiction.
  injection Hdots as Hb. destruct Hone as [Hkey Ha].
  exists r, a, (verbOf key). split; [exact Hr|].
  split; [rewrite <- Hb; exact Hkey|]. split; [exact Ha|].
  rewrite Hd. unfold dispatch, registered. simpl String.eqb. cbv iota.
  now rewrite (find_key_Some routeMap key (key, value) routeMap_keys_NoDup
                 Hin eq_refl).
Qed.

Lemma configureRouter_registered_verbs_witness :
  exists r namespace verb,
    configureRouterIn (reverse routeMap)
      (setGlobal (Some debugGlobal) (dc mon0Ready)) = Some r
    /\ "/VolumeDriver.Unmount" = namespace ++ "." ++ verb
    /\ countByte "." namespace = O
    /\ ServeHTTP r "POST" "/VolumeDriver.Unmount"
       = Some (logHandler verb (config.Debug debugGlobal) dc_unmount).
Proof.
  apply (configureRouter_registered_verbs (reverse routeMap)
           (setGlobal (Some debugGlobal) (dc mon0Ready)) debugGlobal
           "/VolumeDriver.Unmount" dc_unmount).
  - apply reverse_Permutation.
  - reflexivity.
  - unfold routeMap. rewrite !elem_of_cons. do 8 right. left. reflexivity.
Defined.

(** ** [getGlobal] and [watchGlobal] *)

(** X4. Every call of [getGlobal] sends exactly one request, to
    [http://<Master>/global]; it logs one error exactly when the fetch
    fails at one of its three steps; and it touches nothing of the process
    but the stored global configuration: not the client, the reference
    counts, the runtime maps, the goroutines or the files. *)
Theorem getGlobal_one_request_only_Global (w : World) (p : Proc) :
  trace (getGlobal w p)
  = (trace p ++ HttpGet ("http://" ++ Master (dc p) ++ "/global")
       :: (if fetchFailed (getGlobalAnswer w (fetches p))
           then [Log ErrorLevel CouldNotRequestGlobal] else []))%list
  /\ fetches (getGlobal w p) = S (fetches p)
  /\ setGlobal (Global (dc p)) (dc (getGlobal w p)) = dc p
  /\ goroutines (getGlobal w p) = goroutines p
  /\ nextChan (getGlobal w p) = nextChan p
  /\ debugLogging (getGlobal w p) = debugLogging p
  /\ sockFile (getGlobal w p) = sockFile p
  /\ pluginDir (getGlobal w p) = pluginDir p.
Proof.
  unfold getGlobal.
  destruct (getGlobalAnswer w (fetches p)); simpl;
    rewrite <- ?app_assoc; destruct p as [[] ? ? ? ? ? ? ?]; simpl;
    repeat split; reflexivity.
Qed.

Lemma sleeps_getGlobal (w : World) (p : Proc) :
  sleeps (getGlobal w p) = sleeps p.
Proof.
  unfold sleeps, getGlobal.
  destruct (getGlobalAnswer w (fetches p)); simpl;
    rewrite !List.filter_app, !length_app; simpl; lia.
Qed.

Lemma requests_getGlobal (w : World) (p : Proc) :
  requests (getGlobal w p) = S (requests p).
Proof.
  unfold requests, getGlobal.
  destruct (getGlobalAnswer w (fetches p)); simpl;
    rewrite !List.filter_app, !length_app; simpl; lia.
Qed.

Lemma getGlobal_frame (w : World) (p : Proc) :
  fetches (getGlobal w p) = S (fetches p)
  /\ mountCount (dc (getGlobal w p)) = mountCount (dc p)
  /\ Client (dc (getGlobal w p)) = Client (dc p)
  /\ goroutines (getGlobal w p) = goroutines p
  /\ debugLogging (getGlobal w p) = debugLogging p
  /\ sockFile (getGlobal w p) = sockFile p.
Proof.
  unfold getGlobal. destruct (getGlobalAnswer w (fetches p)); simpl;
    repeat split; reflexivity.
Qed.

(** One turn of [watchGlobal] with a configuration in place: it sleeps
    once, asks once, never ends the loop, and switches debug logging on
    when the configuration it then holds has the debug flag. *)
Lemma watchGlobalTurn_Ok (w : World) (p : Proc) :
  is_Some (Global (dc p)) ->
  exists q g,
    watchGlobalTurn w p = Ok tt q
    /\ Global (dc q) = Some g
    /\ debugLogging q = debugLogging p || config.Debug g
    /\ fetches q = S (fetches p)
    /\ sleeps q = S (sleeps p)
    /\ requests q = S (requests p)
    /\ mountCount (dc q) = mountCount (dc p)
    /\ Client (dc q) = Client (dc p)
    /\ goroutines q = goroutines p
    /\ sockFile q = sockFile p.
Proof.
  intros H. unfold watchGlobalTurn.
  set (p1 := emit (Sleep Second) p).
  assert (H1 : is_Some (Global (dc (getGlobal w p1))))
    by (apply getGlobal_keeps_config; exact H).
  destruct (getGlobal_frame w p1) as (F1 & F2 & F3 & F4 & F5 & F6).
  pose proof (sleeps_getGlobal w p1) as Hs.
  pose proof (requests_getGlobal w p1) as Hr.
  assert (Hs1 : sleeps p1 = S (sleeps p)).
  { unfold sleeps, p1. simpl. rewrite List.filter_app, length_app. simpl. lia. }
  assert (Hr1 : requests p1 = requests p).
  { unfold requests, p1. simpl. rewrite List.filter_app, length_app. simpl. lia. }
  destruct (Global (dc (getGlobal w p1))) as [g|] eqn:E;
    [|destruct H1 as [x Hx]; discriminate].
  destruct (config.Debug g) eqn:Ed; eexists; exists g;
    (split; [reflexivity|]); rewrite Ed, ?orb_true_r, ?orb_false_r;
    repeat split; simpl; try assumption; try congruence;
    try (change (sleeps (getGlobal w p1) = S (sleeps p)); congruence);
    try (change (requests (getGlobal w p1) = S (requests p)); congruence).
Qed.

Lemma watchGlobal_turns (w : World) (n : nat) (p : Proc) :
  is_Some (Global (dc p)) ->
  exists q,
    watchGlobal w n p = Spinning q
    /\ is_Some (Global (dc q))
    /\ fetches q = (fetches p + n)%nat
    /\ sleeps q = (sleeps p + n)%nat
    /\ requests q = (requests p + n)%nat
    /\ mountCount (dc q) = mountCount (dc p)
    /\ Client (dc q) = Client (dc p)
    /\ goroutines q = goroutines p
    /\ sockFile q = sockFile p.
Proof.
  revert p. induction n as [|n IH]; intros p H.
  - exists p. simpl. rewrite !Nat.add_0_r. auto 10.
  - destruct (watchGlobalTurn_Ok w p H)
      as (q1 & g & E & Hg & _ & A1 & A2 & A3 & A4 & A5 & A6 & A7).
    destruct (IH q1) as (q & Eq & B0 & B1 & B2 & B3 & B4 & B5 & B6 & B7);
      [rewrite Hg; eauto|].
    exists q. cbn [watchGlobal]. unfold bind. rewrite E.
    split; [exact Eq|]. split; [exact B0|].
    repeat split; try congruence; lia.
Qed.

(** X5. With a global configuration in place [watchGlobal] never leaves
    its loop and never panics: after any number of turns it is still
    polling, it has slept once and sent one request per turn, and it has
    left the reference counts, the client with its stop channels, the
    goroutines and the socket file alone. *)
Theorem watchGlobal_polls_once_per_turn (w : World) (n : nat) (p : Proc) :
  is_Some (Global (dc p)) ->
  exists q,
    watchGlobal w n p = Spinning q
    /\ is_Some (Global (dc q))
    /\ sleeps q = (sleeps p + n)%nat
    /\ requests q = (requests p + n)%nat
    /\ mountCount (dc q) = mountCount (dc p)
    /\ Client (dc q) = Client (dc p)
    /\ goroutines q = goroutines p
    /\ sockFile q = sockFile p.
Proof.
  intros H.
  destruct (watchGlobal_turns w n p H)
    as (q & E & B0 & _ & B2 & B3 & B4 & B5 & B6 & B7).
  exists q. auto 10.
Qed.

Lemma watchGlobal_polls_once_per_turn_witness :
  exists q,
    watchGlobal mon0DebugThenOff 3 mon0Reconciled = Spinning q
    /\ is_Some (Global (dc q))
    /\ sleeps q = (sleeps mon0Reconciled + 3)%nat
    /\ requests q = (requests mon0Reconciled + 3)%nat
    /\ mountCount (dc q) = mountCount (dc mon0Reconciled)
    /\ Client (dc q) = Client (dc mon0Reconciled)
    /\ goroutines q = goroutines mon0Reconciled
    /\ sockFile q = sockFile mon0Reconciled.
Proof.
  apply (watchGlobal_polls_once_per_turn mon0DebugThenOff 3 mon0Reconciled).
  vm_compute. eauto.
Defined.

Lemma watchGlobalTurn_debugLogging (w : World) (p : Proc) :
  debugLogging p = true ->
  debugLogging (stateOf (watchGlobalTurn w p)) = true.
Proof.
  intros H. unfold watchGlobalTurn.
  destruct (getGlobal_frame w (emit (Sleep Second) p)) as (_ & _ & _ & _ & F & _).
  destruct (Global (dc (getGlobal w (emit (Sleep Second) p)))) as [g|];
    [destruct (config.Debug g)|]; simpl; auto; now rewrite F.
Qed.

(** X6. Debug logging is switched on and never off again: a turn of
    [watchGlobal] that ends leaves it on when it was on or when the
    configuration then stored has the debug flag, and once it is on it
    stays on through every later turn, whatever the master serves
    afterwards, a configuration with debug off included. *)
Theorem watchGlobal_debug_logging_sticks (w : World) (p : Proc) :
  (forall q,
     watchGlobalTurn w p = Ok tt q ->
     exists g,
       Global (dc q) = Some g
       /\ debugLogging q = debugLogging p || config.Debug g)
  /\ (debugLogging p = true ->
      forall n, debugLogging (stateOf (watchGlobal w n p)) = true).
Proof.
  split.
  - unfold watchGlobalTurn. intros q.
    destruct (getGlobal_frame w (emit (Sleep Second) p)) as (_ & _ & _ & _ & F & _).
    destruct (Global (dc (getGlobal w (emit (Sleep Second) p)))) as [g|] eqn:E;
      [|discriminate].
    destruct (config.Debug g) eqn:Ed; intros [= <-]; exists g; simpl;
      rewrite Ed, ?orb_true_r, ?orb_false_r; auto.
  - intros H n. revert p H. induction n as [|n IH]; intros p H; [exact H|].
    cbn [watchGlobal]. unfold bind.
    pose proof (watchGlobalTurn_debugLogging w p H) as H1.
    destruct (watchGlobalTurn w p) as [[] q|e q|q|q|q]; simpl in *; auto.
Qed.

(** X7. A turn of [watchGlobal] panics exactly when no configuration is
    stored and the fetch of that turn fails: [dc.Global.Debug] then
    dereferences nil.  It never returns and never exits. *)
Theorem watchGlobalTurn_panics_iff_nil (w : World) (p : Proc) :
  ((exists q, watchGlobalTurn w p = Panic q)
   <-> Global (dc p) = None
       /\ fetchFailed (getGlobalAnswer w (fetches p)) = true)
  /\ (forall e q, watchGlobalTurn w p <> Return e q)
  /\ (forall q, watchGlobalTurn w p <> Exit q)
  /\ (forall q, watchGlobalTurn w p <> Spinning q).
Proof.
  unfold watchGlobalTurn, getGlobal. simpl.
  destruct (getGlobalAnswer w (fetches p)) eqn:Ea; simpl;
    try (destruct (Global (dc p)) as [g|] eqn:Eg;
         [destruct (config.Debug g)|]; simpl;
         (split; [split; [intros [q Hq]; discriminate
                         |intros [H _]; discriminate]
                 |repeat split; intros; discriminate])
         || (split; [split; [auto|intros _; eauto]
                    |repeat split; intros; discriminate]));
    destruct (config.Debug g); simpl;
    (split; [split; [intros [q Hq]; discriminate|intros [_ H]; discriminate]
            |repeat split; intros; discriminate]).
Qed.

(** ** [Daemon] and its watcher *)

Lemma startDaemon_Ok_state (w : World) (fuel : nat) (p : Proc)
    (r : Router) (q : Proc) :
  startDaemon w fuel p = Ok r q ->
  is_Some (Global (dc q)) /\ configureRouter (dc q) = Some r
  /\ sockFile q = true.
Proof.
  intros H.
  destruct (startDaemon_cases w fuel p) as [[_ Hno]|(p1 & p2 & _ & _ & _ & _ & E)].
  - destruct (Hno r q H).
  - destruct (E r q H) as (S & D & C & _). rewrite D.
    split; [|auto]. unfold configureRouter, configureRouterIn in C.
    destruct (Global (dc p2)); [eauto|discriminate].
Qed.

(** X8. The watcher that [Daemon] starts cannot panic: [go dc.watchGlobal()]
    comes after the loop that waits for a configuration, so whenever
    [Daemon] reaches [srv.Serve] a configuration is stored, and from that
    state [watchGlobal] polls for any number of turns without ending,
    leaving the bound socket, the goroutines and the reference counts as
    they are. *)
Theorem Daemon_watcher_never_panics (w : World) (fuel : nat) (p : Proc)
    (r : Router) (q : Proc) (n : nat) :
  startDaemon w fuel p = Ok r q ->
  exists q',
    watchGlobal w n q = Spinning q'
    /\ is_Some (Global (dc q'))
    /\ sockFile q' = true
    /\ goroutines q' = goroutines q
    /\ mountCount (dc q') = mountCount (dc q).
Proof.
  intros H. destruct (startDaemon_Ok_state w fuel p r q H) as (Hg & _ & Hs).
  destruct (watchGlobal_turns w n q Hg)
    as (q' & E & B0 & _ & _ & _ & B4 & _ & B6 & B7).
  exists q'. repeat split; auto; congruence.
Qed.

Lemma Daemon_watcher_never_panics_witness :
  exists q',
    watchGlobal mon0World 5 mon0Serving = Spinning q'
    /\ is_Some (Global (dc q'))
    /\ sockFile q' = true
    /\ goroutines q' = goroutines mon0Serving
    /\ mountCount (dc q') = mountCount (dc mon0Serving).
Proof.
  apply (Daemon_watcher_never_panics mon0World 1 mon0Boot plainRouter).
  vm_compute. reflexivity.
Defined.

(** ** The error paths of [updateMounts] *)

Lemma range_app {A : Type} (body : A -> M unit) (xs ys : list A) (p : Proc) :
  range body (xs ++ ys) p
  = match range body xs p with
    | Ok _ q => range body ys q
    | Return e q => Return e q
    | Exit q => Exit q
    | Panic q => Panic q
    | Spinning q => Spinning q
    end.
Proof.
  revert p. induction xs as [|x xs IH]; intros p; simpl; [reflexivity|].
  unfold bind. destruct (body x p) as [[] q| | | |]; auto.
Qed.

(** X9. A driver that cannot be constructed, or that cannot list its
    mounts, ends the scan at once: [updateMounts] returns that very error,
    the drivers the [range] would visit later are not touched, and for the
    failing driver nothing is called beyond the constructor (and
    [Mounted]): no master call, no goroutine. *)
Theorem updateMounts_driver_error_ends_scan
    (w : World) (p q : Proc) (g : config.Global)
    (before after : list string) (d : string) :
  MountDrivers w = (before ++ d :: after)%list ->
  range (scanDriver w) before p = Ok tt q ->
  Global (dc q) = Some g ->
  match newMountDriver w d (config.MountPath g),
        Mounted w d (config.Timeout g) with
  | Some e, _ =>
      updateMounts w p
      = Return e (emit (NewMountDriver d (config.MountPath g)) q)
  | None, inr e =>
      updateMounts w p
      = Return e (emit (DriverCall d (storage.MountDriver storage.OpMounted))
                    (emit (NewMountDriver d (config.MountPath g)) q))
  | None, inl _ => True
  end.
Proof.
  intros Hds Hbefore Hg. unfold updateMounts. rewrite Hds, range_app, Hbefore.
  simpl. unfold bind, scanDriver. rewrite Hg.
  destruct (newMountDriver w d _) as [e|]; [reflexivity|].
  destruct (Mounted w d _) as [ms|e]; [exact I|reflexivity].
Qed.

Lemma updateMounts_driver_error_ends_scan_witness :
  updateMounts nfsCannotBeBuilt mon0Ready
  = Return (errOther "nfs: no such backend")
      (emit (NewMountDriver "nfs" (config.MountPath exampleGlobal))
         (stateOf (range (scanDriver nfsCannotBeBuilt) ["ceph"] mon0Ready)))
  /\ updateMounts nfsCannotList mon0Ready
     = Return (errOther "nfs: mount scan timed out")
         (emit (DriverCall "nfs" (storage.MountDriver storage.OpMounted))
            (emit (NewMountDriver "nfs" (config.MountPath exampleGlobal))
               (stateOf (range (scanDriver nfsCannotList) ["ceph"] mon0Ready)))).
Proof.
  split.
  - apply (updateMounts_driver_error_ends_scan nfsCannotBeBuilt mon0Ready
             (stateOf (range (scanDriver nfsCannotBeBuilt) ["ceph"] mon0Ready))
             exampleGlobal ["ceph"] ["null"] "nfs").
    + reflexivity.
    + vm_compute. reflexivity.
    + reflexivity.
  - apply (updateMounts_driver_error_ends_scan nfsCannotList mon0Ready
             (stateOf (range (scanDriver nfsCannotList) ["ceph"] mon0Ready))
             exampleGlobal ["ceph"] ["null"] "nfs").
    + reflexivity.
    + vm_compute. reflexivity.
    + reflexivity.
Defined.

(** ** Leases in [updateMounts] *)

(** The loop body once the master has answered with a volume and an error
    the [switch] does not name. *)
Lemma refreshMount_proceeds (w : World) (m : storage.Mount) (p : Proc)
    (vol : config.Volume) (err : option error) (c : client.Driver) :
  length (Split (storage.Name (storage.MountVolume m)) "/") = 2%nat ->
  masterAnswer w m = (Some vol, err) ->
  unnamedError err = true ->
  Client (dc p) = Some c ->
  refreshMount w m p
  = let u := leaseOf (Host (dc p)) m vol in
    match reportMount w u with
    | None => startTasks m u (emit (ReportMount u) (askedMaster m p))
    | Some _ =>
        match reportMountStatus w u with
        | None =>
            startTasks m u
              (emit (ReportMountStatus u) (emit (ReportMount u) (askedMaster m p)))
        | Some e =>
            Return e
              (emit (ReportMountStatus u) (emit (ReportMount u) (askedMaster m p)))
        end
    end.
Proof.
  unfold masterAnswer, refreshMount, askedMaster, leaseOf.
  intros Hlen Hans Herr Hc. rewrite Hlen. simpl. rewrite Hans, Hc.
  destruct err as [[| | |msg]|]; try discriminate; reflexivity.
Qed.

(** X10. When the master refuses both the claim of the lease
    ([ReportMount]) and the record of its status ([ReportMountStatus]),
    reconciliation stops at that mount: the error returned is the one of
    [ReportMountStatus] (the one of [ReportMount] is dropped), no poller,
    heartbeat or stop channel is started for the mount, and the mounts
    after it are not visited. *)
Theorem updateMounts_refused_lease_ends_scan
    (w : World) (m : storage.Mount) (rest : list storage.Mount) (p : Proc)
    (vol : config.Volume) (err : option error) (c : client.Driver)
    (e1 e2 : error) :
  length (Split (storage.Name (storage.MountVolume m)) "/") = 2%nat ->
  masterAnswer w m = (Some vol, err) ->
  unnamedError err = true ->
  Client (dc p) = Some c ->
  reportMount w (leaseOf (Host (dc p)) m vol) = Some e1 ->
  reportMountStatus w (leaseOf (Host (dc p)) m vol) = Some e2 ->
  exists q,
    range (refreshMount w) (m :: rest) p = Return e2 q
    /\ dc q = dc p
    /\ goroutines q = goroutines p
    /\ nextChan q = nextChan p
    /\ trace q
       = (trace p ++
            [Log InfoLevel (RefreshingMount (storage.Name (storage.MountVolume m)));
             RequestVolume (nth 0 (Split (storage.Name (storage.MountVolume m)) "/") "")
               (nth 1 (Split (storage.Name (storage.MountVolume m)) "/") "");
             ReportMount (leaseOf (Host (dc p)) m vol);
             ReportMountStatus (leaseOf (Host (dc p)) m vol)])%list.
Proof.
  intros Hlen Hans Herr Hc H1 H2. eexists.
  simpl. unfold bind.
  rewrite (refreshMount_proceeds w m p vol err c Hlen Hans Herr Hc).
  simpl. rewrite H1, H2.
  split; [reflexivity|]. repeat split.
  unfold askedMaster. simpl. rewrite <- !app_assoc. reflexivity.
Qed.

Lemma updateMounts_refused_lease_ends_scan_witness :
  exists q,
    range (refreshMount
             (leaseAnswers (Some (errOther "lease held by mon1"))
                (Some (errOther "status refused")) mon0World))
      [exampleMount "policy1/test"; exampleMount "policy1/other"] mon0Ready
    = Return (errOther "status refused") q
    /\ dc q = dc mon0Ready
    /\ goroutines q = goroutines mon0Ready
    /\ nextChan q = nextChan mon0Ready
    /\ trace q
       = (trace mon0Ready ++
            [Log InfoLevel (RefreshingMount "policy1/test");
             RequestVolume "policy1" "test";
             ReportMount (leaseOf "mon0" (exampleMount "policy1/test")
                            {| config.Unlocked := false |});
             ReportMountStatus (leaseOf "mon0" (exampleMount "policy1/test")
                                  {| config.Unlocked := false |})])%list.
Proof.
  apply (updateMounts_refused_lease_ends_scan
           (leaseAnswers (Some (errOther "lease held by mon1"))
              (Some (errOther "status refused")) mon0World)
           (exampleMount "policy1/test") [exampleMount "policy1/other"]
           mon0Ready {| config.Unlocked := false |} None
           (client.NewDriver "volmaster:9005")
           (errOther "lease held by mon1") (errOther "status refused"));
    reflexivity.
Defined.

(** X11. The heartbeat carries the very lease that was reported: when the
    master grants the claim, or refuses it and records the status instead,
    the loop body ends normally, having reported one lease that names the
    volume of the mount, the reason "mount", and as holder the host (the
    placeholder when the volume is unlocked), and having started the
    poller of the volume and a heartbeat with that same lease, the TTL of
    the global configuration and the freshly registered stop channel.  The
    status call is made only when the claim was refused. *)
Theorem updateMounts_heartbeat_carries_reported_lease
    (w : World) (m : storage.Mount) (p : Proc)
    (vol : config.Volume) (err : option error) (c : client.Driver)
    (g : config.Global) :
  length (Split (storage.Name (storage.MountVolume m)) "/") = 2%nat ->
  masterAnswer w m = (Some vol, err) ->
  unnamedError err = true ->
  Client (dc p) = Some c ->
  Global (dc p) = Some g ->
  reportMount w (leaseOf (Host (dc p)) m vol) = None
  \/ reportMountStatus w (leaseOf (Host (dc p)) m vol) = None ->
  exists q,
    refreshMount w m p = Ok tt q
    /\ trace q
       = (trace (askedMaster m p)
            ++ ReportMount (leaseOf (Host (dc p)) m vol)
            :: (if reportMount w (leaseOf (Host (dc p)) m vol) is Some _
                then [ReportMountStatus (leaseOf (Host (dc p)) m vol)]
                else []))%list
    /\ goroutines q
       = (goroutines p ++
            [startRuntimePoll (storage.Name (storage.MountVolume m)) m;
             HeartbeatMount (config.TTL g) (leaseOf (Host (dc p)) m vol)
               (nextChan p)])%list
    /\ stopChanOf q (storage.Name (storage.MountVolume m)) = Some (nextChan p)
    /\ nextChan q = S (nextChan p).
Proof.
  intros Hlen Hans Herr Hc Hg Hlease.
  rewrite (refreshMount_proceeds w m p vol err c Hlen Hans Herr Hc). simpl.
  set (u := leaseOf (Host (dc p)) m vol) in *.
  assert (Hstart : forall p0,
             Global (dc p0) = Some g -> Client (dc p0) = Some c ->
             exists q,
               startTasks m u p0 = Ok tt q
               /\ trace q = trace p0
               /\ goroutines q
                  = (goroutines p0 ++
                       [startRuntimePoll (storage.Name (storage.MountVolume m)) m;
                        HeartbeatMount (config.TTL g) u (nextChan p0)])%list
               /\ stopChanOf q (storage.Name (storage.MountVolume m))
                  = Some (nextChan p0)
               /\ nextChan q = S (nextChan p0)).
  { intros p0 Hg0 Hc0. unfold startTasks. simpl. rewrite Hg0, Hc0. simpl.
    eexists. split; [reflexivity|]. unfold stopChanOf. simpl.
    rewrite lookup_insert_eq, <- app_assoc. auto. }
  destruct (reportMount w u) as [e1|] eqn:E1.
  - destruct Hlease as [Hl|Hl]; [discriminate|]. rewrite Hl.
    destruct (Hstart (emit (ReportMountStatus u)
                        (emit (ReportMount u) (askedMaster m p))) Hg Hc)
      as (q & E & T & G & S & N).
    exists q. split; [exact E|]. split; [|auto].
    rewrite T. simpl. rewrite <- !app_assoc. reflexivity.
  - destruct (Hstart (emit (ReportMount u) (askedMaster m p)) Hg Hc)
      as (q & E & T & G & S & N).
    exists q. split; [exact E|]. split; [|auto].
    rewrite T. reflexivity.
Qed.

Lemma updateMounts_heartbeat_carries_reported_lease_witness :
  exists q,
    refreshMount (leaseAnswers (Some (errOther "lease held by mon0")) None
                    (masterAnswers (Some {| config.Unlocked := true |}, None)
                       mon0World))
      (exampleMount "policy1/test") mon0Ready = Ok tt q
    /\ trace q
       = (trace (askedMaster (exampleMount "policy1/test") mon0Ready)
            ++ [ReportMount (leaseOf "mon0" (exampleMount "policy1/test")
                               {| config.Unlocked := true |});
                ReportMountStatus (leaseOf "mon0" (exampleMount "policy1/test")
                                     {| config.Unlocked := true |})])%list
    /\ goroutines q
       = (goroutines mon0Ready ++
            [startRuntimePoll "policy1/test" (exampleMount "policy1/test");
             HeartbeatMount (config.TTL exampleGlobal)
               (leaseOf "mon0" (exampleMount "policy1/test")
                  {| config.Unlocked := true |})
               (nextChan mon0Ready)])%list
    /\ stopChanOf q "policy1/test" = Some (nextChan mon0Ready)
    /\ nextChan q = S (nextChan mon0Ready).
Proof.
  apply (updateMounts_heartbeat_carries_reported_lease
           (leaseAnswers (Some (errOther "lease held by mon0")) None
              (masterAnswers (Some {| config.Unlocked := true |}, None)
                 mon0World))
           (exampleMount "policy1/test") mon0Ready
           {| config.Unlocked := true |} None
           (client.NewDriver "volmaster:9005") exampleGlobal);
    try reflexivity.
  right. reflexivity.
Defined.

(** X12. The [switch] on the error of the lookup has no default case: an
    error that is neither of the two sentinels is not handled.  When it
    comes with a nil volume the loop body panics at [vol.Unlocked], right
    after the lookup; when it comes with a volume the error is ignored and
    the mount is refreshed as if the lookup had succeeded. *)
Theorem updateMounts_unnamed_error_falls_through
    (w : World) (m : storage.Mount) (p : Proc)
    (vol : option config.Volume) (err : error) :
  length (Split (storage.Name (storage.MountVolume m)) "/") = 2%nat ->
  masterAnswer w m = (vol, Some err) ->
  unnamedError (Some err) = true ->
  match vol with
  | None => refreshMount w m p = Panic (askedMaster m p)
  | Some v => refreshMount w m p = refreshMount (masterAnswers (Some v, None) w) m p
  end.
Proof.
  unfold masterAnswer, refreshMount, askedMaster. intros Hlen Hans Herr.
  rewrite Hlen. simpl. rewrite Hans.
  destruct err as [| | |msg]; try discriminate;
    destruct vol as [v|]; reflexivity.
Qed.

Lemma updateMounts_unnamed_error_falls_through_witness :
  refreshMount (masterAnswers (None, Some (errOther "connection refused")) mon0World)
    (exampleMount "policy1/test") mon0Ready
  = Panic (askedMaster (exampleMount "policy1/test") mon0Ready).
Proof.
  apply (updateMounts_unnamed_error_falls_through
           (masterAnswers (None, Some (errOther "connection refused")) mon0World)
           (exampleMount "policy1/test") mon0Ready None
           (errOther "connection refused"));
    reflexivity.
Defined.

(** ** What the scan does for one mount, and for whom *)

(** X13. For one mount the loop body of [updateMounts] makes at most one
    lookup at the master and at most one claim of a lease; it records a
    status only right after a claim, and for the same lease; and it calls
    no driver.  Precisely, what it adds to the trace is either the one
    warning of an invalid name, or the line of the refresh and the lookup
    followed by one of: nothing, the warning of a missing volume, the
    fatal line, a claim, a claim and the status of the same lease. *)
Theorem refreshMount_call_protocol (w : World) (m : storage.Mount) (p : Proc) :
  exists es,
    trace (stateOf (refreshMount w m p)) = (trace p ++ es)%list
    /\ (es = [Log WarnLevel
                (InvalidVolumeName (storage.Name (storage.MountVolume m)))]
        \/ exists policy vname tail,
             es = (Log InfoLevel
                     (RefreshingMount (storage.Name (storage.MountVolume m)))
                   :: RequestVolume policy vname :: tail)%list
             /\ afterAsking tail).
Proof.
  unfold refreshMount.
  destruct (negb _).
  { eexists. split; [reflexivity|]. left. reflexivity. }
  set (policy := nth 0 _ ""). set (vname := nth 1 _ "").
  assert (Hshape : forall q tail,
             trace q
             = (trace p ++
                  Log InfoLevel (RefreshingMount (storage.Name (storage.MountVolume m)))
                  :: RequestVolume policy vname :: tail)%list ->
             afterAsking tail ->
             exists es,
               trace q = (trace p ++ es)%list
               /\ (es = [Log WarnLevel
                           (InvalidVolumeName (storage.Name (storage.MountVolume m)))]
                   \/ exists policy vname tail,
                        es = (Log InfoLevel
                                (RefreshingMount
                                   (storage.Name (storage.MountVolume m)))
                              :: RequestVolume policy vname :: tail)%list
                        /\ afterAsking tail)).
  { intros q tail E H. eexists. split; [exact E|]. right. eauto. }
  destruct (requestVolume w policy vname) as [vol err].
  destruct err as [[| | |msg]|];
    try (eapply Hshape;
         [simpl; rewrite <- !app_assoc; reflexivity
         |unfold afterAsking; auto]);
    (destruct vol as [vol|];
     [|eapply Hshape;
       [simpl; rewrite <- !app_assoc; reflexivity|left; reflexivity]]);
    (destruct (Client (dc _));
     [|eapply Hshape;
       [simpl; rewrite <- !app_assoc; reflexivity|left; reflexivity]]);
    (destruct (reportMount w _);
     [destruct (reportMountStatus w _)|]);
    (eapply Hshape;
     [rewrite ?startTasks_trace; simpl; rewrite <- !app_assoc; reflexivity
     |right; right; right; eexists; eauto]).
Qed.

Lemma tasksPaired_refl (p : Proc) : tasksPaired p p.
Proof. intros V. lia. Qed.

Lemma tasksPaired_trans (p q r : Proc) :
  tasksPaired p q -> tasksPaired q r -> tasksPaired p r.
Proof. intros H1 H2 V. specialize (H1 V). specialize (H2 V). lia. Qed.

Lemma untouched_refl (V : string) (p : Proc) : untouched V p p.
Proof. repeat split. Qed.

Lemma untouched_trans (V : string) (p q r : Proc) :
  untouched V p q -> untouched V q r -> untouched V p r.
Proof.
  intros (A1 & A2 & A3) (B1 & B2 & B3). repeat split; congruence.
Qed.

(** A loop whose turns keep a condition and make a step each. *)
Lemma steps_range_under {A : Type} (R : Proc -> Proc -> Prop)
    (inv : Proc -> Prop) (body : A -> M unit) (xs : list A) :
  (forall p, R p p) ->
  (forall p q r, R p q -> R q r -> R p r) ->
  (forall x p, inv p ->
     inv (stateOf (body x p)) /\ R p (stateOf (body x p))) ->
  forall p, inv p ->
    inv (stateOf (range body xs p)) /\ R p (stateOf (range body xs p)).
Proof.
  intros Hrefl Htrans Hbody.
  induction xs as [|x rest IH]; intros p Hp; simpl; [auto|].
  unfold bind. destruct (Hbody x p Hp) as [Hinv HR].
  destruct (body x p) as [[] q|e q|q|q|q]; simpl in *; auto.
  destruct (IH q Hinv) as [Hinv' HR']. split; [exact Hinv'|].
  eapply Htrans; eauto.
Qed.

Lemma refreshMount_keeps_Global (w : World) (m : storage.Mount) (p : Proc) :
  Global (dc (stateOf (refreshMount w m p))) = Global (dc p).
Proof. destruct (refreshMount_reconciles w m p) as (_ & E & _). exact E. Qed.

#[local] Ltac same_tasks :=
  let V := fresh "V" in
  intros V; unfold pollers, heartbeats; simpl; lia.

Lemma refreshMount_tasksPaired (w : World) (m : storage.Mount) (p : Proc) :
  is_Some (Global (dc p)) ->
  tasksPaired p (stateOf (refreshMount w m p)).
Proof.
  intros [g Hg]. unfold refreshMount.
  destruct (negb _); [same_tasks|].
  destruct (requestVolume w _ _) as [vol err].
  assert (Hstart : forall u p0,
             config.UseVolume u = storage.Name (storage.MountVolume m) ->
             Global (dc p0) = Some g -> is_Some (Client (dc p0)) ->
             goroutines p0 = goroutines p ->
             tasksPaired p (stateOf (startTasks m u p0))).
  { intros u p0 Hu Hg0 [c Hc] Hgo V. unfold startTasks. simpl.
    rewrite Hg0, Hc. simpl. unfold pollers, heartbeats. simpl. rewrite Hgo.
    rewrite <- !app_assoc, !List.filter_app, !length_app. simpl.
    rewrite Hu.
    destruct (String.eqb (storage.Name (storage.MountVolume m)) V); simpl; lia. }
  destruct err as [[| | |msg]|]; try solve [same_tasks];
    (destruct vol as [vol|]; [|same_tasks]);
    (destruct (Client (dc _)) as [c|] eqn:Ec; [|same_tasks]);
    (destruct (reportMount w _);
     [destruct (reportMountStatus w _)|]);
    try solve [same_tasks];
    (apply Hstart; [reflexivity|exact Hg|exists c; exact Ec|reflexivity]).
Qed.

(** X14. [updateMounts] starts pollers and heartbeats in pairs: however it
    ends (nil, an error, the fatal exit or a panic), it has started for
    every volume exactly as many runtime pollers as heartbeats. *)
Theorem updateMounts_starts_tasks_in_pairs (w : World) (p : Proc) (V : string) :
  (pollers (stateOf (updateMounts w p)) V + heartbeats p V
   = pollers p V + heartbeats (stateOf (updateMounts w p)) V)%nat.
Proof.
  revert V. change (tasksPaired p (stateOf (updateMounts w p))).
  apply (steps_range _ tasksPaired_refl tasksPaired_trans).
  intros d _ q. unfold scanDriver.
  destruct (Global (dc q)) as [g|] eqn:Hg; [|same_tasks].
  destruct (newMountDriver w d _); [same_tasks|].
  destruct (Mounted w d _) as [ms|e]; [|same_tasks].
  match goal with
  | |- tasksPaired q (stateOf (range _ _ ?q0)) =>
      apply (tasksPaired_trans q q0); [same_tasks|];
      apply (steps_range_under tasksPaired (fun s => is_Some (Global (dc s)))
               (refreshMount w) ms tasksPaired_refl tasksPaired_trans)
  end.
  - intros m s Hs. split.
    + now rewrite refreshMount_keeps_Global.
    + apply refreshMount_tasksPaired. exact Hs.
  - simpl. rewrite Hg. eauto.
Qed.

Lemma startTasks_untouched (m : storage.Mount) (u : config.UseMount)
    (p : Proc) (V : string) :
  config.UseVolume u = storage.Name (storage.MountVolume m) ->
  V <> storage.Name (storage.MountVolume m) ->
  untouched V p (stateOf (startTasks m u p)).
Proof.
  intros Hu Hne.
  assert (Hf : String.eqb (storage.Name (storage.MountVolume m)) V = false)
    by (apply String.eqb_neq; congruence).
  destruct (startTasks_cases m u p) as [[q E]|E]; rewrite E; simpl.
  - destruct (startTasks_Ok _ _ _ _ E) as (g & _ & _ & H2 & H3 & _).
    unfold untouched.
    rewrite (heartbeats_app p V _ q H3), (pollers_app p V _ q H3). simpl.
    rewrite Hu, Hf. simpl. rewrite (H2 V Hne). repeat split; lia.
  - unfold untouched, heartbeats, pollers. simpl.
    rewrite !List.filter_app, !length_app. simpl. rewrite Hf. simpl.
    repeat split; lia.
Qed.

Lemma refreshMount_neverRefreshed (w : World) (m : storage.Mount) (p : Proc) :
  neverRefreshed w (storage.Name (storage.MountVolume m)) ->
  goroutines (stateOf (refreshMount w m p)) = goroutines p
  /\ dc (stateOf (refreshMount w m p)) = dc p.
Proof.
  unfold neverRefreshed, refreshMount. intros H.
  destruct (Nat.eqb_spec
              (length (Split (storage.Name (storage.MountVolume m)) "/")) 2)
    as [Hlen|Hlen]; simpl; [|auto].
  destruct (requestVolume w _ _) as [vol err]. simpl in H.
  destruct err as [[| | |msg]|]; simpl; auto;
    destruct vol as [vol|]; simpl; auto;
    exfalso; destruct H as [H|[H|[H|H]]]; congruence.
Qed.

#[local] Ltac same_state :=
  match goal with |- untouched ?V ?p _ => exact (untouched_refl V p) end.

Lemma refreshMount_untouched (w : World) (m : storage.Mount) (V : string) :
  neverRefreshed w V ->
  steps (untouched V) (refreshMount w m).
Proof.
  intros Hnever p.
  destruct (decide (V = storage.Name (storage.MountVolume m))) as [->|Hne].
  - destruct (refreshMount_neverRefreshed w m p Hnever) as [Hgo Hdc].
    unfold untouched, heartbeats, pollers, stopChanOf.
    rewrite Hgo, Hdc. auto.
  - unfold refreshMount.
    destruct (negb _); [same_state|].
    destruct (requestVolume w _ _) as [vol err].
    destruct err as [[| | |msg]|]; try same_state;
      (destruct vol as [vol|]; [|same_state]);
      (destruct (Client (dc _)) as [c|] eqn:Ec; [|same_state]);
      (destruct (reportMount w _);
       [destruct (reportMountStatus w _)|]);
      try same_state;
      match goal with
      | |- untouched _ _ (stateOf (startTasks ?m ?u ?q)) =>
          exact (startTasks_untouched m u q V eq_refl Hne)
      end.
Qed.

(** X15. Reconciliation starts nothing for a volume it does not refresh:
    when a name has not exactly two parts, or the master answers its lookup
    with [errVolumeNotFound], with [errVolumeResponse] or with no volume,
    then however [updateMounts] ends, and however many mounts carry the
    name, the volume has the heartbeats, the pollers and the stop channel
    it had before. *)
Theorem updateMounts_starts_nothing_for_unknown_volume
    (w : World) (p : Proc) (V : string) :
  neverRefreshed w V ->
  heartbeats (stateOf (updateMounts w p)) V = heartbeats p V
  /\ pollers (stateOf (updateMounts w p)) V = pollers p V
  /\ stopChanOf (stateOf (updateMounts w p)) V = stopChanOf p V.
Proof.
  intros Hnever. change (untouched V p (stateOf (updateMounts w p))).
  apply (steps_range _ (untouched_refl V) (untouched_trans V)).
  intros d _ q. unfold scanDriver.
  destruct (Global (dc q)) as [g|]; [|same_state].
  destruct (newMountDriver w d _); [same_state|].
  destruct (Mounted w d _) as [ms|e]; [|same_state].
  match goal with
  | |- untouched _ q (stateOf (range _ _ ?q0)) =>
      apply (untouched_trans V q q0); [same_state|];
      exact (steps_range _ (untouched_refl V) (untouched_trans V) _ ms
               (fun x _ => refreshMount_untouched w x V Hnever) q0)
  end.
Qed.

Lemma updateMounts_starts_nothing_for_unknown_volume_witness :
  heartbeats
    (stateOf (updateMounts (masterAnswers (None, Some errVolumeNotFound) mon0World)
                mon0Ready)) "policy1/test"
  = heartbeats mon0Ready "policy1/test"
  /\ pollers
       (stateOf (updateMounts (masterAnswers (None, Some errVolumeNotFound) mon0World)
                   mon0Ready)) "policy1/test"
     = pollers mon0Ready "policy1/test"
  /\ stopChanOf
       (stateOf (updateMounts (masterAnswers (None, Some errVolumeNotFound) mon0World)
                   mon0Ready)) "policy1/test"
     = stopChanOf mon0Ready "policy1/test".
Proof.
  apply (updateMounts_starts_nothing_for_unknown_volume
           (masterAnswers (None, Some errVolumeNotFound) mon0World) mon0Ready
           "policy1/test").
  right. left. reflexivity.
Defined.

(** ** When reconciliation succeeds *)






(** ** The socket at startup and shutdown *)

(** X17. A socket file left behind by an earlier run does not keep the
    agent from starting: when the three calls on the file system succeed
    in themselves, [Daemon] binds the socket whether the path existed or
    not, because the path is removed first and a missing path is not an
    error.  It then holds the bound socket file, a plugin directory (made
    with mode [0700] if there was none) and the router of the stored
    configuration. *)
Theorem bindSocket_survives_stale_socket (w : World) (p : Proc)
    (g : config.Global) :
  osRemoveFails w = None ->
  mkdirAllFails w = None ->
  listenUnixFails w = None ->
  Global (dc p) = Some g ->
  exists r q,
    bindSocket w p = Ok r q
    /\ sockFile q = true
    /\ pluginDir q = Some (default perm0700 (pluginDir p))
    /\ configureRouter (dc p) = Some r
    /\ trace q = (trace p ++ [OsRemove driverPath; MkdirAll basePath perm0700;
                              ListenUnix driverPath])%list.
Proof.
  intros H1 H2 H3 Hg.
  destruct (configureRouterIn_dispatch routeMap (dc p) g (reflexivity _) Hg)
    as (r & Hr & _).
  exists r. unfold bindSocket, bind, orReturn, osRemove, osMkdirAll, netListenUnix.
  rewrite H1.
  destruct p as [d gs tr nc f dl sf pd]. simpl in *.
  destruct sf; simpl; rewrite H2; simpl; rewrite H3; simpl;
    unfold configureRouter; rewrite Hr;
    eexists; (split; [reflexivity|]); simpl;
    rewrite <- !app_assoc; auto.
Qed.

Lemma bindSocket_survives_stale_socket_witness :
  exists r q,
    bindSocket mon0World (withDc (dc mon0Ready) mon0Boot) = Ok r q
    /\ sockFile q = true
    /\ pluginDir q
       = Some (default perm0700 (pluginDir (withDc (dc mon0Ready) mon0Boot)))
    /\ configureRouter (dc (withDc (dc mon0Ready) mon0Boot)) = Some r
    /\ trace q
       = (trace (withDc (dc mon0Ready) mon0Boot)
            ++ [OsRemove driverPath; MkdirAll basePath perm0700;
                ListenUnix driverPath])%list.
Proof.
  apply (bindSocket_survives_stale_socket mon0World
           (withDc (dc mon0Ready) mon0Boot) exampleGlobal);
    reflexivity.
Defined.

(** X18. Each step of binding the socket that fails ends [Daemon] with its
    error, and the later steps are not attempted: an error of [os.Remove]
    other than "does not exist" is returned before the directory is made;
    an error of [os.MkdirAll] is returned before the socket is bound; an
    error of [net.ListenUnix] is returned before the router is built.  In
    the last two cases no socket file is left. *)
Theorem bindSocket_stops_at_first_error (w : World) (p : Proc) :
  match osRemoveFails w, mkdirAllFails w, listenUnixFails w with
  | Some e, _, _ =>
      IsNotExist e = false ->
      bindSocket w p = Return e (emit (OsRemove driverPath) p)
  | None, Some e, _ =>
      exists q,
        bindSocket w p = Return e q
        /\ sockFile q = false
        /\ trace q = (trace p ++ [OsRemove driverPath;
                                  MkdirAll basePath perm0700])%list
  | None, None, Some e =>
      exists q,
        bindSocket w p = Return e q
        /\ sockFile q = false
        /\ trace q = (trace p ++ [OsRemove driverPath;
                                  MkdirAll basePath perm0700;
                                  ListenUnix driverPath])%list
  | None, None, None => True
  end.
Proof.
  unfold bindSocket, bind, orReturn, osRemove, osMkdirAll, netListenUnix.
  destruct (osRemoveFails w) as [e1|].
  - intros Hne. simpl. rewrite Hne. reflexivity.
  - destruct p as [d gs tr nc f dl sf pd]. simpl.
    destruct (mkdirAllFails w) as [e2|].
    + destruct sf; simpl; eexists; (split; [reflexivity|]); simpl;
        rewrite <- !app_assoc; auto.
    + destruct (listenUnixFails w) as [e3|]; [|exact I].
      destruct sf; simpl; eexists; (split; [reflexivity|]); simpl;
        rewrite <- !app_assoc; auto.
Qed.

(** X19. When [Daemon] has reached [srv.Serve] and [srv.Serve] returns
    nil, the listener is closed and the socket path removed, in this
    order, and no socket file is left.  What [Daemon] returns is what that
    last [os.Remove] returns: nil when closing the listener left the file
    in place, and the "does not exist" error when closing the listener had
    already unlinked it. *)
Theorem Daemon_clean_shutdown (w : World) (fuel : nat) (p : Proc)
    (r : Router) (q : Proc) :
  startDaemon w fuel p = Ok r q ->
  serveReturns w = None ->
  osRemoveFails w = None ->
  exists q',
    Daemon w fuel p
    = (if closeUnlinks w then Return errNotExist q' else Ok tt q')
    /\ sockFile q' = false
    /\ trace q' = (trace q ++ [Serve r; CloseListener; OsRemove driverPath])%list.
Proof.
  intros Hstart Hs Hr.
  destruct (startDaemon_Ok_state w fuel p r q Hstart) as (_ & _ & Hsock).
  unfold Daemon, bind. rewrite Hstart.
  unfold serveDaemon, orReturn, osRemove. rewrite Hs, Hr.
  destruct q as [d gs tr nc f dl sf pd]. simpl in *. subst sf.
  destruct (closeUnlinks w); simpl; eexists; (split; [reflexivity|]); simpl;
    rewrite <- !app_assoc; auto.
Qed.

Lemma Daemon_clean_shutdown_witness :
  exists q',
    Daemon mon0World 1 mon0Boot
    = (if closeUnlinks mon0World then Return errNotExist q' else Ok tt q')
    /\ sockFile q' = false
    /\ trace q'
       = (trace mon0Serving ++ [Serve plainRouter; CloseListener;
                                OsRemove driverPath])%list.
Proof.
  apply (Daemon_clean_shutdown mon0World 1 mon0Boot plainRouter mon0Serving).
  - vm_compute. reflexivity.
  - reflexivity.
  - reflexivity.
Defined.

Lemma waitGlobal_keeps_files (w : World) (fuel : nat) (p : Proc) :
  sockFile (stateOf (waitGlobal w fuel p)) = sockFile p.
Proof.
  revert p. induction fuel as [|n IH]; intros p; cbn [waitGlobal];
    [reflexivity|].
  destruct (getGlobal_frame w p) as (_ & _ & _ & _ & _ & F).
  destruct (Global (dc (getGlobal w p))); simpl; [exact F|].
  rewrite IH. exact F.
Qed.

(** X20. A reconciliation that does not return nil ends [Daemon] the same
    way: the error [updateMounts] returns is the error [Daemon] returns,
    and its fatal exit or panic is that of [Daemon]; the state is the one
    [updateMounts] ended in, so neither the signal handler nor the watcher
    has been started, and the socket path has not been touched. *)
Theorem Daemon_ends_as_failed_reconcile (w : World) (fuel : nat) (p p1 : Proc) :
  waitGlobal w fuel (withClient p) = Ok tt p1 ->
  match updateMounts w
          (emit (Log InfoLevel (ReachedVolmaster (Master (dc p1)))) p1) with
  | Ok _ _ => True
  | Return e q => Daemon w fuel p = Return e q /\ sockFile q = sockFile p
  | Exit q => Daemon w fuel p = Exit q /\ sockFile q = sockFile p
  | Panic q => Daemon w fuel p = Panic q /\ sockFile q = sockFile p
  | Spinning q => Daemon w fuel p = Spinning q /\ sockFile q = sockFile p
  end.
Proof.
  intros Hwait.
  pose proof (waitGlobal_keeps_files w fuel (withClient p)) as Hf.
  rewrite Hwait in Hf. simpl in Hf.
  pose proof (updateMounts_reconciles w
                (emit (Log InfoLevel (ReachedVolmaster (Master (dc p1)))) p1))
    as (_ & _ & Hs & _).
  unfold Daemon, bind. rewrite startDaemon_eq, Hwait.
  destruct (updateMounts w _) as [[] q|e q|q|q|q]; simpl in Hs;
    try exact I; (split; [reflexivity|congruence]).
Qed.

Lemma Daemon_ends_as_failed_reconcile_witness :
  match updateMounts nfsCannotBeBuilt
          (emit (Log InfoLevel
                   (ReachedVolmaster
                      (Master (dc (stateOf (waitGlobal nfsCannotBeBuilt 1
                                              (withClient mon0Boot)))))))
             (stateOf (waitGlobal nfsCannotBeBuilt 1 (withClient mon0Boot)))) with
  | Ok _ _ => True
  | Return e q =>
      Daemon nfsCannotBeBuilt 1 mon0Boot = Return e q
      /\ sockFile q = sockFile mon0Boot
  | Exit q =>
      Daemon nfsCannotBeBuilt 1 mon0Boot = Exit q
      /\ sockFile q = sockFile mon0Boot
  | Panic q =>
      Daemon nfsCannotBeBuilt 1 mon0Boot = Panic q
      /\ sockFile q = sockFile mon0Boot
  | Spinning q =>
      Daemon nfsCannotBeBuilt 1 mon0Boot = Spinning q
      /\ sockFile q = sockFile mon0Boot
  end.
Proof.
  apply (Daemon_ends_as_failed_reconcile nfsCannotBeBuilt 1 mon0Boot
           (stateOf (waitGlobal nfsCannotBeBuilt 1 (withClient mon0Boot)))).
  vm_compute. reflexivity.
Defined.
